(** * Subtitle frame segmentation: a shallow embedding of
      [src/tools/segment_frames.py] and the properties of its forward pass.

    The development follows the source top-down: Python exceptions as an
    error monad, Python floats as IEEE-754 values, the NumPy and PIL
    operations the script calls as an interface, then [is_blank_frame],
    [calculate_frame_difference], the frame loader (regular expression,
    [int], the two sorts) and the loop of [segment_frames], and last
    [format_timestamp] and the total duration of [print_segment_summary].
    The printing itself, the command line and the JSON file the script
    writes are not part of the model. *)

From Stdlib Require Import ZArith List String Ascii Bool Lia.
From Stdlib Require Import Sorting.Sorted Sorting.Permutation Sorting.Mergesort.
From Stdlib Require Import Structures.Orders.
From Stdlib Require Import Floats.SpecFloat.
Import ListNotations.

Local Open Scope string_scope.
Local Open Scope Z_scope.
Local Open Scope list_scope.

(** ** Python exceptions *)

(** An exception is identified by the name of its class and its message. *)
Inductive exn : Type :=
| Exn (cls : string) (msg : string).

Definition exc_class (e : exn) : string :=
  match e with Exn c _ => c end.

Definition exc_msg (e : exn) : string :=
  match e with Exn _ m => m end.

(** A computation either returns a value or raises. *)
Inductive result (A : Type) : Type :=
| Ok (a : A)
| Raise (e : exn).

Arguments Ok {A} a.
Arguments Raise {A} e.

Definition bind {A B : Type} (m : result A) (k : A -> result B) : result B :=
  match m with
  | Ok a => k a
  | Raise e => Raise e
  end.

Definition fmap {A B : Type} (f : A -> B) (m : result A) : result B :=
  bind m (fun a => Ok (f a)).

Notation "x <- m ;; k" := (bind m (fun x => k))
  (at level 61, m at next level, right associativity).

(** ** Python floats

    A Python [float] is an IEEE-754 binary64 value; [<] and [<=] are the
    IEEE comparisons, false as soon as one side is NaN.  A NumPy scalar
    compared with a Python float is compared by value. *)

Definition float : Type := spec_float.

Definition float_lt (x y : float) : bool := SFltb x y.
Definition float_le (x y : float) : bool := SFleb x y.

(** The binary64 value [m * 2^e]. *)
Definition float_of_scaled (m e : Z) : float := binary_normalize 53 1024 m e false.

Definition float_of_Z (m : Z) : float := float_of_scaled m 0.

(** ** The NumPy and PIL operations used by the script

    [np.std], [np.mean], [np.abs], [astype] and array subtraction are
    library code; the script's logic is stated over any implementation
    of them.  Subtracting two arrays whose shapes do not broadcast raises
    [ValueError]. *)
Class NumPy : Type := {
  ndarray : Type;
  shape : ndarray -> list nat;
  np_mean_axis2 : ndarray -> ndarray;
  np_std : ndarray -> float;
  astype_float32 : ndarray -> ndarray;
  np_subtract : ndarray -> ndarray -> result ndarray;
  np_abs : ndarray -> ndarray;
  np_mean : ndarray -> float
}.

(** A frames directory, which exists: the names [os.listdir] returns, in
    the order it returns them, and what [Image.open] followed by
    [np.array] yields for each name (a decoding failure raises). *)
Record Directory `{NumPy} : Type := {
  os_listdir : list string;
  image_open : string -> result ndarray
}.

(** ** Frame comparator and frame classifier *)

Section Measures.
Context `{NP : NumPy}.

Definition load_image_as_array (frames_dir : Directory) (filename : string)
  : result ndarray :=
  image_open frames_dir filename.

Definition calculate_frame_difference (img1 img2 : ndarray) : result float :=
  d <- np_subtract (astype_float32 img1) (astype_float32 img2) ;;
  let diff := np_abs d in
  Ok (np_mean diff).

Definition default_blank_threshold : float := float_of_Z 30.
Definition default_diff_threshold : float := float_of_Z 15.
Definition default_min_segment_duration : Z := 1.

Definition is_blank_frame (img : ndarray) (blank_threshold : float) : bool :=
  let gray :=
    if (List.length (shape img) =? 3)%nat then np_mean_axis2 img else img in
  let std_dev := np_std gray in
  float_lt std_dev blank_threshold.

(** The luminance of a pixel array as the specification words it: the
    per-pixel mean over the channels of a 3-dimensional array, the raw
    values of any other array. *)
Definition luminance (img : ndarray) : ndarray :=
  match shape img with
  | [_; _; _] => np_mean_axis2 img
  | _ => img
  end.

Definition count_blank (blank_threshold : float) (imgs : list ndarray) : nat :=
  List.length (filter (fun img => is_blank_frame img blank_threshold) imgs).

End Measures.

(** ** The frame loader *)

(** *** The regular expression

    The fragment of Python's [re] the script uses: literal text (what
    [re.escape] makes of the video identifier, and the escaped [\.jpg]),
    [\d{n}], a capturing group, concatenation, [^] and [$].  Without
    [re.MULTILINE], [$] matches at the end of the string and also just
    before a newline that is the last character of the string.  File
    names are strings of characters with code points below 256; among
    these [\d] matches the ten characters 0 to 9. *)
Inductive regex : Type :=
| Lit (s : string)
| Digits (n : nat)
| Group (r : regex)
| Cat (r1 r2 : regex)
| Bol
| Eol.

Definition LF : ascii := ascii_of_nat 10.

Definition is_digit (c : ascii) : bool :=
  ((48 <=? nat_of_ascii c) && (nat_of_ascii c <=? 57))%nat.

Fixpoint all_digits (s : string) : bool :=
  match s with
  | EmptyString => true
  | String c s' => is_digit c && all_digits s'
  end.

Fixpoint drop (n : nat) (s : string) : string :=
  match n, s with
  | O, _ => s
  | S n', String _ s' => drop n' s'
  | S _, EmptyString => EmptyString
  end.

Fixpoint take (n : nat) (s : string) : string :=
  match n, s with
  | O, _ => EmptyString
  | S n', String c s' => String c (take n' s')
  | S _, EmptyString => EmptyString
  end.

(** [re_run r pos s] matches [r] against [s], the text that starts at
    offset [pos] of the subject; on success it returns the offset reached,
    the text left and the captured groups in the order of their opening
    parentheses. *)
Fixpoint re_run (r : regex) (pos : nat) (s : string)
  : option (nat * string * list string) :=
  match r with
  | Lit l =>
      if prefix l s then Some ((pos + String.length l)%nat, drop (String.length l) s, [])
      else None
  | Digits n =>
      let d := take n s in
      if (String.length d =? n)%nat && all_digits d
      then Some ((pos + n)%nat, drop n s, [])
      else None
  | Group r1 =>
      match re_run r1 pos s with
      | Some (pos', s', gs) => Some (pos', s', take (pos' - pos) s :: gs)
      | None => None
      end
  | Cat r1 r2 =>
      match re_run r1 pos s with
      | Some (p1, s1, g1) =>
          match re_run r2 p1 s1 with
          | Some (p2, s2, g2) => Some (p2, s2, g1 ++ g2)
          | None => None
          end
      | None => None
      end
  | Bol => if (pos =? 0)%nat then Some (pos, s, []) else None
  | Eol =>
      if (s =? EmptyString)%string || (s =? String LF EmptyString)%string
      then Some (pos, s, [])
      else None
  end.

(** [pattern.match(filename)]: the groups of a match at the start of the
    string, if there is one. *)
Definition re_match (pattern : regex) (subject : string) : option (list string) :=
  match re_run pattern 0 subject with
  | Some (_, _, gs) => Some gs
  | None => None
  end.

(** [re.compile(rf'^{re.escape(video_id)}_(\d{{4}})\.jpg$')] *)
Definition frame_pattern (video_id : string) : regex :=
  Cat Bol (Cat (Lit video_id) (Cat (Lit "_")
    (Cat (Group (Digits 4)) (Cat (Lit ".jpg") Eol)))).

(** [int] on a string of decimal digits, which is all the group of the
    pattern can hold. *)
Definition digit_value (c : ascii) : Z := Z.of_nat (nat_of_ascii c) - 48.

Fixpoint int_digits (acc : Z) (s : string) : Z :=
  match s with
  | EmptyString => acc
  | String c s' => int_digits (10 * acc + digit_value c) s'
  end.

Definition py_int (s : string) : Z := int_digits 0 s.

(** *** The two sorts

    [sorted(os.listdir(...))] orders names as Python orders strings, by
    code point; [frame_files.sort()] orders the pairs as Python orders
    tuples, by frame number and then by name. *)

Module StringOrder <: TotalLeBool.
Definition t := string.
Definition leb := String.leb.
Definition leb_total := String.leb_total.
End StringOrder.

Module StringSort := Sort StringOrder.

Definition frame_file : Type := (Z * string)%type.

Definition frame_leb (a b : frame_file) : bool :=
  (fst a <? fst b) || ((fst a =? fst b) && String.leb (snd a) (snd b)).

Definition frame_leb_total (a b : frame_file) :
  frame_leb a b = true \/ frame_leb b a = true.
Proof.
  unfold frame_leb. destruct a as [n f], b as [m g]; simpl.
  destruct (Z.ltb_spec n m); [now left|].
  destruct (Z.ltb_spec m n); [now right|].
  assert (n = m) by lia; subst. rewrite Z.eqb_refl; simpl.
  apply String.leb_total.
Qed.

Module FrameOrder <: TotalLeBool.
Definition t := frame_file.
Definition leb := frame_leb.
Definition leb_total := frame_leb_total.
End FrameOrder.

Module FrameSort := Sort FrameOrder.

(** *** Enumerating the frames of a video *)

(** The body of the [for filename in sorted(os.listdir(frames_dir))] loop. *)
Fixpoint collect_frames (pattern : regex) (names : list string) : list frame_file :=
  match names with
  | [] => []
  | filename :: rest =>
      match re_match pattern filename with
      | Some (g1 :: _) => (py_int g1, filename) :: collect_frames pattern rest
      | _ => collect_frames pattern rest
      end
  end.

Definition no_frames_error (video_id : string) : exn :=
  Exn "ValueError" ("No frames found for video_id: " ++ video_id)%string.

(** Lines 87 to 99 of the script: the list [frame_files] the loop runs
    over, or the exception raised when it is empty. *)
Definition find_frames `{NumPy} (frames_dir : Directory) (video_id : string)
  : result (list frame_file) :=
  let pattern := frame_pattern video_id in
  let frame_files := collect_frames pattern (StringSort.sort (os_listdir frames_dir)) in
  match frame_files with
  | [] => Raise (no_frames_error video_id)
  | _ => Ok (FrameSort.sort frame_files)
  end.

(** ** The segmenter *)

(** A segment dictionary, with the keys of the source. *)
Record Segment : Type := {
  video_id : string;
  segment_id : Z;
  start_time : Z;
  end_time : Z;
  start_frame : Z;
  end_frame : Z;
  frame_count : Z;
  representative_frame : string
}.

Definition duration (seg : Segment) : Z := end_time seg - start_time seg + 1.

Section Segmenter.
Context `{NP : NumPy}.

(** The three variables the loop updates. *)
Record LoopState : Type := {
  segments : list Segment;
  current_segment : option Segment;
  prev_img : option ndarray
}.

Definition initial_state : LoopState :=
  {| segments := []; current_segment := None; prev_img := None |}.

Definition none_item_assignment : exn :=
  Exn "TypeError" "'NoneType' object does not support item assignment".

Section Loop.
Variable frames_dir : Directory.
Variable vid : string.
Variables diff_threshold blank_threshold : float.

(** One iteration of [for i, (frame_num, filename) in enumerate(frame_files)].
    The dictionary [current_segment] is updated in place only while it is
    open; once appended to [segments] it is replaced, by [None] or by a
    new dictionary, so no appended dictionary changes afterwards and a
    record copy stands for the update.  Item assignment on [None] would
    raise [TypeError]. *)
Definition loop_body (st : LoopState) (frame : frame_file) : result LoopState :=
  let '(frame_num, filename) := frame in
  curr_img <- load_image_as_array frames_dir filename ;;
  let timestamp := frame_num - 1 in
  let is_blank := is_blank_frame curr_img blank_threshold in
  if is_blank then
    Ok {| segments :=
            match current_segment st with
            | Some seg => segments st ++ [seg]
            | None => segments st
            end;
          current_segment := None;
          prev_img := Some curr_img |}
  else
    is_same_subtitle <-
      match prev_img st with
      | Some prev =>
          if negb (is_blank_frame prev blank_threshold) then
            diff <- calculate_frame_difference prev curr_img ;;
            Ok (float_lt diff diff_threshold)
          else Ok false
      | None => Ok false
      end ;;
    if negb is_same_subtitle then
      let segments' :=
        match current_segment st with
        | Some seg => segments st ++ [seg]
        | None => segments st
        end in
      Ok {| segments := segments';
            current_segment :=
              Some {| video_id := vid;
                      segment_id := Z.of_nat (List.length segments') + 1;
                      start_time := timestamp;
                      end_time := timestamp;
                      start_frame := frame_num;
                      end_frame := frame_num;
                      frame_count := 1;
                      representative_frame := filename |};
            prev_img := Some curr_img |}
    else
      match current_segment st with
      | Some seg =>
          Ok {| segments := segments st;
                current_segment :=
                  Some {| video_id := video_id seg;
                          segment_id := segment_id seg;
                          start_time := start_time seg;
                          end_time := timestamp;
                          start_frame := start_frame seg;
                          end_frame := frame_num;
                          frame_count := frame_count seg + 1;
                          representative_frame := representative_frame seg |};
                prev_img := Some curr_img |}
      | None => Raise none_item_assignment
      end.

Fixpoint segment_loop (st : LoopState) (frame_files : list frame_file)
  : result LoopState :=
  match frame_files with
  | [] => Ok st
  | frame :: rest =>
      st' <- loop_body st frame ;;
      segment_loop st' rest
  end.

(** "Don't forget the last segment". *)
Definition close_last (st : LoopState) : list Segment :=
  match current_segment st with
  | Some seg => segments st ++ [seg]
  | None => segments st
  end.

(** The loop and the closing of the last segment, on a given list of
    frames: the value of [segments] at line 158. *)
Definition segment_pass (frame_files : list frame_file) : result (list Segment) :=
  st <- segment_loop initial_state frame_files ;;
  Ok (close_last st).

(** [segments] before the minimum-duration filter. *)
Definition raw_segments : result (list Segment) :=
  frame_files <- find_frames frames_dir vid ;;
  segment_pass frame_files.

End Loop.

Definition keep_segment (min_segment_duration : Z) (seg : Segment) : bool :=
  end_time seg - start_time seg + 1 >=? min_segment_duration.

Definition segment_frames (frames_dir : Directory) (vid : string)
    (diff_threshold blank_threshold : float) (min_segment_duration : Z)
  : result (list Segment) :=
  segs <- raw_segments frames_dir vid diff_threshold blank_threshold ;;
  let filtered_segments := filter (keep_segment min_segment_duration) segs in
  Ok filtered_segments.

End Segmenter.

(** ** A concrete implementation for running the script

    Frames that are 1x2 grayscale images [[a, b]] of 8-bit pixels.  On
    such arrays NumPy's results are exact, whatever its summation order:
    [np.std] is [|a - b| / 2], and the mean absolute difference of
    [[a, b]] and [[c, d]] is [(|a - c| + |b - d|) / 2], a binary32 value
    given here as the binary64 of the same value.  An array is the pair
    of its two entries; the arrays of differences hold any integers. *)
Module TwoPixel.

Definition image : Type := (Z * Z)%type.

Definition numpy : NumPy := {|
  ndarray := image;
  shape := fun _ => [1%nat; 2%nat];
  np_mean_axis2 := fun a => a;
  np_std := fun a => float_of_scaled (Z.abs (fst a - snd a)) (-1);
  astype_float32 := fun a => a;
  np_subtract := fun a b => Ok (fst a - fst b, snd a - snd b);
  np_abs := fun a => (Z.abs (fst a), Z.abs (snd a));
  np_mean := fun a => float_of_scaled (fst a + snd a) (-1)
|}.

Fixpoint lookup (files : list (string * image)) (name : string) : result image :=
  match files with
  | [] => Raise (Exn "FileNotFoundError" name)
  | (n, img) :: rest => if (n =? name)%string then Ok img else lookup rest name
  end.

(** The directory that holds exactly the given image files. *)
Definition directory (files : list (string * image)) : @Directory numpy :=
  @Build_Directory numpy (map fst files) (lookup files).

Definition run (files : list (string * image)) (vid : string)
    (diff_threshold blank_threshold : float) (min_segment_duration : Z)
  : result (list Segment) :=
  @segment_frames numpy (directory files) vid
    diff_threshold blank_threshold min_segment_duration.

Definition run_raw (files : list (string * image)) (vid : string)
    (diff_threshold blank_threshold : float) : result (list Segment) :=
  @raw_segments numpy (directory files) vid diff_threshold blank_threshold.

End TwoPixel.

(** * Definitions used to state the properties *)

(** The frames of a video: a name of the directory listing that matches
    the pattern, with the number its digits denote. *)
Definition is_frame_of (vid : string) (names : list string) (frame : frame_file) : Prop :=
  In (snd frame) names /\
  exists d tail,
    String.length d = 4%nat /\ all_digits d = true /\
    (tail = EmptyString \/ tail = String LF EmptyString) /\
    snd frame = (vid ++ "_" ++ d ++ ".jpg" ++ tail)%string /\
    fst frame = py_int d.

Definition ends_with_newline (name : string) : Prop :=
  exists s, name = (s ++ String LF EmptyString)%string.

(** ** Runs and blocks of frames *)

(** A run of frames accumulated into one segment: its first frame and the
    frames that extended it. *)
Definition run : Type := (frame_file * list frame_file)%type.

Definition run_frames (r : run) : list frame_file := fst r :: snd r.

Definition run_last (r : run) : frame_file := last (snd r) (fst r).

(** The segment dictionary a run leaves behind. *)
Definition segment_of_run (vid : string) (id : Z) (r : run) : Segment :=
  {| video_id := vid;
     segment_id := id;
     start_time := fst (fst r) - 1;
     end_time := fst (run_last r) - 1;
     start_frame := fst (fst r);
     end_frame := fst (run_last r);
     frame_count := Z.of_nat (List.length (run_frames r));
     representative_frame := snd (fst r) |}.

(** The segments of successive runs, the first of which is the [k+1]-th
    segment emitted. *)
Fixpoint segments_of_runs (vid : string) (k : nat) (rs : list run) : list Segment :=
  match rs with
  | [] => []
  | r :: rs' => segment_of_run vid (Z.of_nat k + 1) r :: segments_of_runs vid (S k) rs'
  end.

(** A block: the blank frames that precede a run, and the run. *)
Definition block : Type := (list frame_file * run)%type.

Definition block_frames (b : block) : list frame_file := fst b ++ run_frames (snd b).

Definition blocks_frames (bs : list block) : list frame_file := flat_map block_frames bs.

Section PassState.
Context `{NP : NumPy}.
Variable frames_dir : Directory.
Variable vid : string.
Variable blank_threshold : float.

(** How the loop classifies a frame: [Some true] blank, [Some false]
    content, [None] when the image does not load. *)
Definition classify (f : frame_file) : option bool :=
  match load_image_as_array frames_dir (snd f) with
  | Ok img => Some (is_blank_frame img blank_threshold)
  | Raise _ => None
  end.

Definition is_blank (f : frame_file) : Prop := classify f = Some true.
Definition is_content (f : frame_file) : Prop := classify f = Some false.

Definition block_ok (b : block) : Prop :=
  Forall is_blank (fst b) /\ Forall is_content (run_frames (snd b)).

(** The state of the loop after the frames [processed]: the closed
    blocks, the blank frames seen since, and the open run. *)
Definition pass_inv (processed : list frame_file) (st : LoopState)
    (closed : list block) (blanks : list frame_file) (open : option run) : Prop :=
  processed = blocks_frames closed ++ blanks ++
                match open with Some r => run_frames r | None => [] end /\
  segments st = segments_of_runs vid 0 (map snd closed) /\
  current_segment st =
    option_map (segment_of_run vid (Z.of_nat (List.length closed) + 1)) open /\
  Forall block_ok closed /\
  Forall is_blank blanks /\
  match open with
  | Some r => Forall is_content (run_frames r)
  | None =>
      match prev_img st with
      | Some p => is_blank_frame p blank_threshold = true
      | None => True
      end
  end.

End PassState.

(** ** Coverage, order and comparison of runs *)

Definition in_frame_range (n : Z) (seg : Segment) : bool :=
  (start_frame seg <=? n) && (n <=? end_frame seg).

(** The number of segments whose frame range holds frame number [n]. *)
Definition covering (segs : list Segment) (n : Z) : nat :=
  List.length (filter (in_frame_range n) segs).

(** Frame numbers with no gap: each is the previous one plus one. *)
Fixpoint contiguous (l : list Z) : Prop :=
  match l with
  | a :: ((b :: _) as rest) => b = a + 1 /\ contiguous rest
  | _ => True
  end.

(** What distinguishes a segment from the moment it is opened. *)
Definition same_opening (a b : Segment) : Prop :=
  video_id a = video_id b /\ segment_id a = segment_id b /\
  start_time a = start_time b /\ start_frame a = start_frame b /\
  representative_frame a = representative_frame b.

Definition result_rel {A : Type} (P : A -> A -> Prop) (r1 r2 : result A) : Prop :=
  match r1, r2 with
  | Ok a1, Ok a2 => P a1 a2
  | Raise e1, Raise e2 => e1 = e2
  | _, _ => False
  end.

Section StateRelation.
Context `{NP : NumPy}.
Variable blank_threshold : float.

(** Without an open segment the previous frame, if any, was blank. *)
Definition state_safe (st : LoopState) : Prop :=
  current_segment st = None ->
  match prev_img st with
  | Some p => is_blank_frame p blank_threshold = true
  | None => True
  end.

(** The states of the run with [t1] and of the run with [t2] after the
    same frames. *)
Definition states_rel (st1 st2 : LoopState) : Prop :=
  prev_img st1 = prev_img st2 /\
  (current_segment st1 = None <-> current_segment st2 = None) /\
  state_safe st1 /\
  (List.length (close_last st2) <= List.length (close_last st1))%nat.

End StateRelation.

(** ** Example frames

    [text_a] and [text_a'] show the same subtitle (mean difference 5),
    [text_b] and [text_c] other subtitles (mean difference from [text_a]
    200 and 10); [no_text] is a uniform frame.  Standard deviations: 100,
    95, 100, 90 and 0. *)
Module Frames.
Definition text_a : TwoPixel.image := (0, 200).
Definition text_a' : TwoPixel.image := (10, 200).
Definition text_b : TwoPixel.image := (200, 0).
Definition text_c : TwoPixel.image := (0, 180).
Definition no_text : TwoPixel.image := (40, 40).

Definition d5 : float := float_of_Z 5.
Definition d15 : float := float_of_Z 15.
Definition b30 : float := float_of_Z 30.
End Frames.

(** Two content frames, numbers 1 and 2, whose mean difference is 10. *)
Definition two_close_frames : list (string * TwoPixel.image) :=
  [("v_0001.jpg", Frames.text_a); ("v_0002.jpg", Frames.text_c)].

(** The scenario of the specification: frames 1 to 5 show one subtitle
    with pairwise difference 5, frame 6 is blank, frame 7 shows text. *)
Definition scenario_frames : list (string * TwoPixel.image) :=
  [("v_0001.jpg", Frames.text_a); ("v_0002.jpg", Frames.text_a');
   ("v_0003.jpg", Frames.text_a); ("v_0004.jpg", Frames.text_a');
   ("v_0005.jpg", Frames.text_a); ("v_0006.jpg", Frames.no_text);
   ("v_0007.jpg", Frames.text_a)].

Definition scenario_segments : list Segment :=
  [ {| video_id := "v"; segment_id := 1;
       start_time := 0; end_time := 4; start_frame := 1; end_frame := 5;
       frame_count := 5; representative_frame := "v_0001.jpg" |};
    {| video_id := "v"; segment_id := 2;
       start_time := 6; end_time := 6; start_frame := 7; end_frame := 7;
       frame_count := 1; representative_frame := "v_0007.jpg" |} ].

(** A directory that holds frames of another video and a name whose
    number has three digits. *)
Definition other_files : list (string * TwoPixel.image) :=
  [("w_0001.jpg", Frames.text_a); ("v_001.jpg", Frames.text_b)].

(** Frames 9 and 10 show one subtitle, frame 11 another for one second
    (start and end time 10), frames 12 and 13 the first one again. *)
Definition spike_frames : list (string * TwoPixel.image) :=
  [("v_0009.jpg", Frames.text_a); ("v_0010.jpg", Frames.text_a');
   ("v_0011.jpg", Frames.text_b);
   ("v_0012.jpg", Frames.text_a); ("v_0013.jpg", Frames.text_a')].

Definition spike_segment : Segment :=
  {| video_id := "v"; segment_id := 2;
     start_time := 10; end_time := 10; start_frame := 11; end_frame := 11;
     frame_count := 1; representative_frame := "v_0011.jpg" |}.

Definition before_spike : Segment :=
  {| video_id := "v"; segment_id := 1;
     start_time := 8; end_time := 9; start_frame := 9; end_frame := 10;
     frame_count := 2; representative_frame := "v_0009.jpg" |}.

Definition after_spike : Segment :=
  {| video_id := "v"; segment_id := 3;
     start_time := 11; end_time := 12; start_frame := 12; end_frame := 13;
     frame_count := 2; representative_frame := "v_0012.jpg" |}.

(** The listing of the example: one well-formed name, one name with three
    digits, one with five. *)
Definition mixed_width_files : list (string * TwoPixel.image) :=
  [("v_12345.jpg", Frames.text_b); ("v_0001.jpg", Frames.text_a);
   ("v_001.jpg", Frames.text_c)].

(** Frames 1 and 3 of one subtitle, frame 2 missing. *)
Definition gap_frames : list (string * TwoPixel.image) :=
  [("v_0001.jpg", Frames.text_a); ("v_0003.jpg", Frames.text_a')].

(** The name "v_0001.jpg" followed by a newline, and directories that
    hold it next to "v_0001.jpg": [$] lets it match, and both names get
    frame number 1. *)
Definition newline_name : string := ("v_0001.jpg" ++ String LF EmptyString)%string.

Definition twice_frame_1 : list (string * TwoPixel.image) :=
  [("v_0001.jpg", Frames.text_a); (newline_name, Frames.text_b)].

Definition twice_frame_1_blank : list (string * TwoPixel.image) :=
  [("v_0001.jpg", Frames.text_a); (newline_name, Frames.no_text)].

Definition first_of_twice : Segment :=
  {| video_id := "v"; segment_id := 1;
     start_time := 0; end_time := 0; start_frame := 1; end_frame := 1;
     frame_count := 1; representative_frame := "v_0001.jpg" |}.

Definition second_of_twice : Segment :=
  {| video_id := "v"; segment_id := 2;
     start_time := 0; end_time := 0; start_frame := 1; end_frame := 1;
     frame_count := 1; representative_frame := newline_name |}.

(** ** Definitions for the further properties of [segment_frames] *)

Section FrameKinds.
Context `{NP : NumPy}.
Variable frames_dir : Directory.
Variables diff_threshold blank_threshold : float.

(** A frame whose image loads and is not blank. *)
Definition content_frame (f : frame_file) : bool :=
  match classify frames_dir blank_threshold f with
  | Some false => true
  | _ => false
  end.

Definition count_content (fs : list frame_file) : nat :=
  List.length (filter content_frame fs).

(** Whether a content frame with image [img] shows the subtitle of the
    frame before it, whose image is [prev]: the previous frame exists, is
    not blank and differs from [img] by less than the threshold. *)
Definition continues_subtitle (prev : option ndarray) (img : ndarray) : bool :=
  match prev with
  | Some p =>
      if is_blank_frame p blank_threshold then false
      else
        match calculate_frame_difference p img with
        | Ok diff => float_lt diff diff_threshold
        | Raise _ => false
        end
  | None => false
  end.


End FrameKinds.

(** The frame a segment was opened at: its number and its file name. *)
Definition segment_opening (seg : Segment) : frame_file :=
  (start_frame seg, representative_frame seg).

(** Python's [sum] of integers: from 0, adding from the left. *)
Definition py_sum (l : list Z) : Z := fold_left Z.add l 0.

Section SameRun.
Context `{NP : NumPy}.
Variable frames_dir : Directory.
Variables diff_threshold blank_threshold : float.


End SameRun.

(** Two frames without text. *)
Definition blank_only_frames : list (string * TwoPixel.image) :=
  [("v_0001.jpg", Frames.no_text); ("v_0002.jpg", Frames.no_text)].

(** One frame with text between frames without. *)
Definition lone_text_frames : list (string * TwoPixel.image) :=
  [("v_0001.jpg", Frames.no_text); ("v_0002.jpg", Frames.text_a);
   ("v_0003.jpg", Frames.no_text); ("v_0004.jpg", Frames.no_text)].


Section Failures.
Context `{NP : NumPy}.
Variable frames_dir : Directory.

(** An image read from one of the files [names]. *)
Definition loaded_from (names : list string) (img : ndarray) : Prop :=
  exists name, In name names /\ image_open frames_dir name = Ok img.

(** What can make the pass over the files [names] raise [e]: one of the
    files does not load and raises [e], or the subtraction of the arrays
    of two of the files raises [e]. *)
Definition failure_cause (names : list string) (e : exn) : Prop :=
  (exists name, In name names /\ image_open frames_dir name = Raise e) \/
  (exists a b, loaded_from names a /\ loaded_from names b /\
               np_subtract (astype_float32 a) (astype_float32 b) = Raise e).

(** The previous image, if there is one, was read from one of [names]. *)
Definition prev_loaded (names : list string) (st : LoopState) : Prop :=
  forall p, prev_img st = Some p -> loaded_from names p.

End Failures.

(** No segment is open and the previous frame, if any, was blank. *)
Definition after_blank `{NP : NumPy} (blank_threshold : float) (st : LoopState)
  : Prop :=
  current_segment st = None /\
  match prev_img st with
  | Some p => is_blank_frame p blank_threshold = true
  | None => True
  end.

(** A directory whose second frame is not an image. *)
Definition not_an_image : exn :=
  Exn "UnidentifiedImageError" "cannot identify image file".

Definition broken_directory : @Directory TwoPixel.numpy :=
  @Build_Directory TwoPixel.numpy ["v_0001.jpg"; "v_0002.jpg"]
    (fun name => if (name =? "v_0002.jpg")%string then Raise not_an_image
                 else Ok Frames.text_a).

(** A directory whose first frame has number 0. *)
Definition frame_zero_frames : list (string * TwoPixel.image) :=
  [("v_0000.jpg", Frames.text_a); ("v_0001.jpg", Frames.text_a')].

(** The directory of [scenario_frames] with its names listed backwards. *)
Definition scenario_backwards : @Directory TwoPixel.numpy :=
  @Build_Directory TwoPixel.numpy (rev (map fst scenario_frames))
    (TwoPixel.lookup scenario_frames).

(** ** The summary: [format_timestamp] and the total duration

    [print_segment_summary] prints, for each segment, its two times as
    timestamps and, at the end, the sum of the durations.  The values it
    prints are modelled, the printing is not.  The times of a segment are
    Python ints ([frame_num - 1]), so [format_timestamp] is modelled on
    ints: [//] and [%] are floor division and its remainder, which on Z
    are [/] and [mod] for the positive divisors used here, and [int] is
    the identity. *)

Definition digit_char (d : Z) : ascii := ascii_of_nat (Z.to_nat (48 + d)).

(** The decimal digits of [n >= 0], most significant first.  [fuel]
    bounds the number of digits. *)
Fixpoint decimal_digits (fuel : nat) (n : Z) : string :=
  match fuel with
  | O => ""
  | S fuel' =>
      let higher := if n <? 10 then "" else decimal_digits fuel' (n / 10) in
      (higher ++ String (digit_char (n mod 10)) "")%string
  end.

(** A number has at most one more decimal digit than its binary
    logarithm. *)
Definition decimal (n : Z) : string :=
  decimal_digits (S (Z.to_nat (Z.log2 n))) n.

Fixpoint zeros (k : nat) : string :=
  match k with
  | O => ""
  | S k' => String "0" (zeros k')
  end.

(** [f"{n:0<width>d}"]: the sign, if negative, then zeros up to the width,
    then the digits of the absolute value. *)
Definition format_0d (width : nat) (n : Z) : string :=
  let sign := if n <? 0 then "-" else "" in
  let digits := decimal (Z.abs n) in
  (sign ++ zeros (width - String.length sign - String.length digits) ++ digits)%string.

Definition format_timestamp (seconds : Z) : string :=
  let hours := seconds / 3600 in
  let minutes := (seconds mod 3600) / 60 in
  let secs := seconds mod 60 in
  let millis := (seconds mod 1) * 1000 in
  (format_0d 2 hours ++ ":" ++ format_0d 2 minutes ++ ":" ++ format_0d 2 secs
   ++ "," ++ format_0d 3 millis)%string.

(** [sum(seg['end_time'] - seg['start_time'] + 1 for seg in segments)] *)
Definition total_duration (segments : list Segment) : Z :=
  py_sum (map (fun seg => end_time seg - start_time seg + 1) segments).

(** The format the docstring of [format_timestamp] names, HH:MM:SS,mmm:
    twelve characters, digits but for the three separators. *)
Definition srt_shape (t : string) : bool :=
  (String.length t =? 12)%nat
  && all_digits (take 2 t) && (take 1 (drop 2 t) =? ":")%string
  && all_digits (take 2 (drop 3 t)) && (take 1 (drop 5 t) =? ":")%string
  && all_digits (take 2 (drop 6 t)) && (take 1 (drop 8 t) =? ",")%string
  && all_digits (drop 9 t).


(** The file names the pattern of line 87 matches. *)
Definition is_frame_name (vid name : string) : bool :=
  match re_match (frame_pattern vid) name with
  | Some (_ :: _) => true
  | _ => false
  end.

(** The directory of [scenario_frames] with the files of another video and
    a file that is not an image, none of which can be opened. *)
Definition scenario_with_others : @Directory TwoPixel.numpy :=
  @Build_Directory TwoPixel.numpy
    ("w_0001.jpg" :: "notes.txt" :: map fst scenario_frames)
    (fun name =>
       if is_frame_name "v" name then TwoPixel.lookup scenario_frames name
       else Raise not_an_image).

(** * Properties *)

(** ** Float comparisons *)

Lemma pos_compare_cont_spec (p q : positive) :
  CompareSpec (p = q) (Pos.lt p q) (Pos.lt q p) (Pos.compare_cont Eq p q).
Proof. exact (Pos.compare_spec p q). Qed.

Ltac float_order :=
  repeat match goal with
  | |- context [Z.compare ?a ?b] => destruct (Z.compare_spec a b)
  | H : context [Z.compare ?a ?b] |- _ => destruct (Z.compare_spec a b)
  | |- context [Pos.compare_cont Eq ?a ?b] => destruct (pos_compare_cont_spec a b)
  | H : context [Pos.compare_cont Eq ?a ?b] |- _ => destruct (pos_compare_cont_spec a b)
  end;
  simpl in *; subst; try congruence; try lia.

(** [x < a] and [a <= b] give [x < b], also with infinities; a NaN makes
    a hypothesis false. *)
Lemma float_lt_le_trans (x a b : float) :
  float_lt x a = true -> float_le a b = true -> float_lt x b = true.
Proof.
  unfold float_lt, float_le, SFltb, SFleb, SFcompare.
  destruct x as [sx|sx| |sx mx ex], a as [sa|sa| |sa ma ea],
           b as [sb|sb| |sb mb eb];
    repeat match goal with s : bool |- _ => destruct s end;
    simpl; try congruence; intros; float_order.
Qed.

Lemma float_lt_irrefl (x : float) : float_lt x x = false.
Proof.
  unfold float_lt, SFltb, SFcompare.
  destruct x as [s|s| |s m e]; try destruct s; simpl; try reflexivity;
    rewrite Z.compare_refl;
    destruct (pos_compare_cont_spec m m); simpl; try reflexivity; lia.
Qed.

(** ** The frame loader *)

Lemma prefix_split (l s : string) :
  prefix l s = true -> s = (l ++ drop (String.length l) s)%string.
Proof.
  revert s. induction l as [|c l IH]; intros [|c' s] H; simpl in *;
    try reflexivity; try discriminate.
  destruct (ascii_dec c c') as [->|]; [|discriminate].
  f_equal. now apply IH.
Qed.

Lemma prefix_append (l r : string) : prefix l (l ++ r)%string = true.
Proof.
  induction l as [|c l IH]; simpl.
  - now destruct r.
  - destruct (ascii_dec c c); [exact IH | congruence].
Qed.

Lemma drop_append (l r : string) : drop (String.length l) (l ++ r)%string = r.
Proof. induction l; simpl; auto. Qed.

Lemma take_append (l r : string) : take (String.length l) (l ++ r)%string = l.
Proof. induction l; simpl; [now destruct r | now f_equal]. Qed.

Lemma take_drop (n : nat) (s : string) : (take n s ++ drop n s)%string = s.
Proof.
  revert s. induction n; intros [|c s]; simpl; try reflexivity.
  now rewrite IHn.
Qed.

Lemma re_run_cat (r1 r2 : regex) (pos : nat) (s : string) p1 s1 g1 :
  re_run r1 pos s = Some (p1, s1, g1) ->
  re_run (Cat r1 r2) pos s =
  match re_run r2 p1 s1 with
  | Some (p2, s2, g2) => Some (p2, s2, g1 ++ g2)
  | None => None
  end.
Proof. intros H. cbn [re_run]. now rewrite H. Qed.

Lemma re_run_lit (l r : string) (pos : nat) :
  re_run (Lit l) pos (l ++ r)%string = Some ((pos + String.length l)%nat, r, []).
Proof. cbn [re_run]. now rewrite prefix_append, drop_append. Qed.

Lemma re_run_group_digits (n : nat) (d r : string) (pos : nat) :
  String.length d = n -> all_digits d = true ->
  re_run (Group (Digits n)) pos (d ++ r)%string = Some ((pos + n)%nat, r, [d]).
Proof.
  intros Hlen Hdig. cbn [re_run]. subst n.
  rewrite take_append, drop_append, Nat.eqb_refl, Hdig. cbn [andb].
  replace (pos + String.length d - pos)%nat with (String.length d) by lia.
  now rewrite take_append.
Qed.

(** What a name that matches the pattern looks like, and conversely. *)
Lemma frame_pattern_match (vid filename : string) (gs : list string) :
  re_match (frame_pattern vid) filename = Some gs <->
  exists d tail,
    gs = [d] /\ String.length d = 4%nat /\ all_digits d = true /\
    (tail = EmptyString \/ tail = String LF EmptyString) /\
    filename = (vid ++ "_" ++ d ++ ".jpg" ++ tail)%string.
Proof.
  unfold re_match, frame_pattern. split.
  - cbn [re_run Nat.eqb].
    destruct (prefix vid filename) eqn:Hv; [|discriminate].
    set (s1 := drop (String.length vid) filename).
    destruct (prefix "_" s1) eqn:H1; [|discriminate].
    set (s2 := drop (String.length "_") s1).
    destruct ((String.length (take 4 s2) =? 4)%nat && all_digits (take 4 s2))
      eqn:Hd; [|discriminate].
    set (s3 := drop 4 s2).
    destruct (prefix ".jpg" s3) eqn:Hj; [|discriminate].
    set (s4 := drop (String.length ".jpg") s3).
    destruct ((s4 =? EmptyString)%string || (s4 =? String LF EmptyString)%string)
      eqn:He; [|discriminate].
    intros [= <-].
    apply andb_true_iff in Hd as [Hlen Hdig]. apply Nat.eqb_eq in Hlen.
    exists (take 4 s2), s4.
    repeat split; auto.
    + do 2 f_equal. lia.
    + apply orb_true_iff in He as [He|He]; apply String.eqb_eq in He; auto.
    + rewrite (prefix_split _ _ Hv) at 1. fold s1. f_equal.
      rewrite (prefix_split _ _ H1) at 1. fold s2. f_equal.
      rewrite <- (take_drop 4 s2) at 1. fold s3. f_equal.
      now rewrite (prefix_split _ _ Hj) at 1.
  - intros (d & tail & -> & Hlen & Hdig & Htail & ->).
    erewrite re_run_cat by reflexivity.
    erewrite re_run_cat by apply re_run_lit.
    erewrite re_run_cat by apply re_run_lit.
    erewrite re_run_cat by (apply re_run_group_digits; eassumption).
    erewrite re_run_cat by apply re_run_lit.
    destruct Htail as [-> | ->]; reflexivity.
Qed.

Lemma is_digit_value (c : ascii) : is_digit c = true -> 0 <= digit_value c <= 9.
Proof.
  unfold is_digit, digit_value. intros H.
  apply andb_true_iff in H as [H1 H2].
  apply Nat.leb_le in H1, H2. lia.
Qed.

Lemma int_digits_bounds (s : string) (acc : Z) :
  all_digits s = true ->
  acc * 10 ^ Z.of_nat (String.length s) <= int_digits acc s
  < (acc + 1) * 10 ^ Z.of_nat (String.length s).
Proof.
  revert acc. induction s as [|c s IH]; intros acc H.
  - cbn [String.length int_digits]. change (10 ^ Z.of_nat 0) with 1. lia.
  - cbn [all_digits] in H. apply andb_true_iff in H as [Hc Hs].
    apply is_digit_value in Hc.
    cbn [String.length int_digits].
    rewrite Nat2Z.inj_succ, Z.pow_succ_r by lia.
    specialize (IH (10 * acc + digit_value c) Hs).
    assert (0 < 10 ^ Z.of_nat (String.length s)) by (apply Z.pow_pos_nonneg; lia).
    nia.
Qed.

(** Four decimal digits denote a number from 0 to 9999. *)
Lemma py_int_four_digits (d : string) :
  String.length d = 4%nat -> all_digits d = true -> 0 <= py_int d <= 9999.
Proof.
  intros Hlen Hdig. unfold py_int.
  pose proof (int_digits_bounds d 0 Hdig) as H. rewrite Hlen in H.
  change (10 ^ Z.of_nat 4) with 10000 in H. lia.
Qed.

Lemma collect_frames_In (p : regex) (names : list string) (n : Z) (f : string) :
  In (n, f) (collect_frames p names) <->
  In f names /\ exists g gs, re_match p f = Some (g :: gs) /\ n = py_int g.
Proof.
  induction names as [|a names IH]; cbn [collect_frames In].
  - tauto.
  - destruct (re_match p a) as [[|g gs]|] eqn:Hm; cbn [In]; rewrite IH.
    + split; [tauto|]. intros [[->|H] (g & gs & Hg & E)]; [congruence | eauto].
    + split.
      * intros [[= <- <-]|[H E]]; [eauto 6 | tauto].
      * intros [[->|H] (g' & gs' & Hg & ->)]; [left|right; eauto].
        rewrite Hm in Hg. now injection Hg as <- <-.
    + split; [tauto|]. intros [[->|H] (g & gs & Hg & E)]; [congruence | eauto].
Qed.

Lemma collect_frames_spec (vid : string) (names : list string) (frame : frame_file) :
  In frame (collect_frames (frame_pattern vid) names) <-> is_frame_of vid names frame.
Proof.
  destruct frame as [n f]. rewrite collect_frames_In. unfold is_frame_of; cbn [fst snd].
  split.
  - intros [Hin (g & gs & Hm & ->)]. split; [exact Hin|].
    apply frame_pattern_match in Hm as (d & tail & [= -> ->] & Hl & Hd & Ht & ->).
    exists d, tail. auto.
  - intros [Hin (d & tail & Hl & Hd & Ht & Hf & ->)]. split; [exact Hin|].
    exists d, []. split; [|reflexivity].
    apply frame_pattern_match. exists d, tail. auto.
Qed.

Lemma StringSort_In (names : list string) (f : string) :
  In f (StringSort.sort names) <-> In f names.
Proof.
  split; apply Permutation_in;
    [apply Permutation_sym|]; apply StringSort.Permuted_sort.
Qed.

Lemma FrameSort_In (l : list frame_file) (x : frame_file) :
  In x (FrameSort.sort l) <-> In x l.
Proof.
  split; apply Permutation_in;
    [apply Permutation_sym|]; apply FrameSort.Permuted_sort.
Qed.

Section Loader.
Context `{NP : NumPy}.
Variable frames_dir : Directory.
Variable vid : string.

(** The frames [find_frames] returns are exactly the matching names. *)
Lemma find_frames_In (frame_files : list frame_file) (frame : frame_file) :
  find_frames frames_dir vid = Ok frame_files ->
  (In frame frame_files <-> is_frame_of vid (os_listdir frames_dir) frame).
Proof.
  unfold find_frames.
  destruct (collect_frames _ _) as [|x l] eqn:E; [discriminate|].
  intros [= <-]. rewrite FrameSort_In, <- E, collect_frames_spec.
  unfold is_frame_of. now rewrite StringSort_In.
Qed.

Lemma find_frames_nonempty (frame_files : list frame_file) :
  find_frames frames_dir vid = Ok frame_files -> frame_files <> [].
Proof.
  unfold find_frames.
  destruct (collect_frames _ _) as [|x l] eqn:E; [discriminate|].
  intros [= <-] H.
  assert (In x (FrameSort.sort (x :: l))) as Hin by (apply FrameSort_In; now left).
  now rewrite H in Hin.
Qed.

(** [find_frames] raises exactly when no name matches, and then it
    raises the [ValueError] of line 97. *)
Lemma find_frames_raises (e : exn) :
  find_frames frames_dir vid = Raise e <->
  e = no_frames_error vid /\
  Forall (fun name => re_match (frame_pattern vid) name = None) (os_listdir frames_dir).
Proof.
  unfold find_frames.
  destruct (collect_frames _ _) as [|[n f] l] eqn:E.
  - split; [intros [= <-]; split; [reflexivity|] | now intros [-> _]].
    apply Forall_forall. intros name Hin.
    destruct (re_match (frame_pattern vid) name) as [gs|] eqn:Hm; [|reflexivity].
    exfalso.
    pose proof Hm as Hm'.
    apply frame_pattern_match in Hm' as (d & tail & -> & _).
    assert (In (py_int d, name) (collect_frames (frame_pattern vid)
              (StringSort.sort (os_listdir frames_dir)))) as Hc
      by (apply collect_frames_In; rewrite StringSort_In; eauto).
    now rewrite E in Hc.
  - split; [discriminate|]. intros [_ Hall]. exfalso.
    assert (In (n, f) (collect_frames (frame_pattern vid)
              (StringSort.sort (os_listdir frames_dir)))) as Hin
      by (rewrite E; now left).
    apply collect_frames_In in Hin as [Hin (g & gs & Hm & _)].
    rewrite StringSort_In in Hin.
    rewrite Forall_forall in Hall. rewrite (Hall _ Hin) in Hm. discriminate.
Qed.

(** After [frame_files.sort()], frame numbers never decrease. *)
Lemma find_frames_sorted (frame_files : list frame_file) :
  find_frames frames_dir vid = Ok frame_files ->
  StronglySorted (fun a b => fst a <= fst b) frame_files.
Proof.
  unfold find_frames.
  destruct (collect_frames _ _) as [|x l] eqn:E; [discriminate|].
  intros [= <-].
  apply Sorted_StronglySorted; [intros a b c; simpl; lia|].
  pose proof (FrameSort.Sorted_sort (x :: l)) as HS.
  induction HS as [|a s HS IH Hd]; constructor; auto.
  destruct Hd as [|b s Hab]; constructor.
  unfold is_true, FrameOrder.leb, frame_leb in Hab.
  apply orb_true_iff in Hab as [H|H]; [apply Z.ltb_lt in H; lia|].
  apply andb_true_iff in H as [H _]. apply Z.eqb_eq in H. lia.
Qed.

End Loader.

(** ** The forward pass, frame by frame *)

Lemma segments_of_runs_length (vid : string) (rs : list run) (k : nat) :
  List.length (segments_of_runs vid k rs) = List.length rs.
Proof. revert k. induction rs; intros k; simpl; auto. Qed.

Lemma segments_of_runs_snoc (vid : string) (rs : list run) (r : run) (k : nat) :
  segments_of_runs vid k (rs ++ [r]) =
  segments_of_runs vid k rs ++
    [segment_of_run vid (Z.of_nat (k + List.length rs) + 1) r].
Proof.
  revert k. induction rs as [|a rs IH]; intros k; simpl.
  - now rewrite Nat.add_0_r.
  - rewrite IH. do 4 f_equal. lia.
Qed.

Lemma blocks_frames_snoc (bs : list block) (b : block) :
  blocks_frames (bs ++ [b]) = blocks_frames bs ++ block_frames b.
Proof. unfold blocks_frames. rewrite flat_map_app. simpl. now rewrite app_nil_r. Qed.

Section Pass.
Context `{NP : NumPy}.
Variable frames_dir : Directory.
Variable vid : string.
Variables diff_threshold blank_threshold : float.

Abbreviation body := (loop_body frames_dir vid diff_threshold blank_threshold).
Abbreviation loop := (segment_loop frames_dir vid diff_threshold blank_threshold).
Abbreviation pass := (segment_pass frames_dir vid diff_threshold blank_threshold).

Lemma segment_loop_app (st : LoopState) (l1 l2 : list frame_file) :
  loop st (l1 ++ l2) = (st1 <- loop st l1 ;; loop st1 l2).
Proof.
  revert st. induction l1 as [|f l1 IH]; intros st; cbn [app segment_loop].
  - reflexivity.
  - destruct (body st f) as [st1|e]; cbn [bind]; auto.
Qed.

Lemma pass_inv_initial : pass_inv frames_dir vid blank_threshold [] initial_state [] [] None.
Proof. unfold pass_inv; simpl; auto 10. Qed.

Lemma pass_inv_step processed st closed blanks open f st' :
  pass_inv frames_dir vid blank_threshold processed st closed blanks open ->
  body st f = Ok st' ->
  exists closed' blanks' open',
    pass_inv frames_dir vid blank_threshold (processed ++ [f]) st' closed' blanks' open'.
Proof.
  intros (Hp & Hs & Hc & Hcl & Hbl & Ho) Hb.
  unfold loop_body in Hb. destruct f as [frame_num filename].
  destruct (load_image_as_array frames_dir filename) as [img|e] eqn:Hload;
    cbn [bind] in Hb; [|discriminate].
  assert (Hclass : classify frames_dir blank_threshold (frame_num, filename)
                   = Some (is_blank_frame img blank_threshold))
    by (unfold classify; cbn [snd]; now rewrite Hload).
  destruct (is_blank_frame img blank_threshold) eqn:Hblank.
  - (* a blank frame closes the open run *)
    injection Hb as <-.
    destruct open as [r|]; cbn [option_map] in Hc; rewrite Hc.
    + exists (closed ++ [(blanks, r)]), [(frame_num, filename)], None.
      unfold pass_inv; cbn [segments current_segment prev_img option_map].
      repeat split; auto.
      * rewrite Hp, blocks_frames_snoc. unfold block_frames; cbn [fst snd].
        now rewrite !app_nil_r, <- !app_assoc.
      * rewrite map_app; cbn [map snd].
           rewrite segments_of_runs_snoc, Hs, length_map. reflexivity.
      * apply Forall_app; split; auto. constructor; auto. split; auto.
    + exists closed, (blanks ++ [(frame_num, filename)]), None.
      unfold pass_inv; cbn [segments current_segment prev_img option_map].
      repeat split; auto.
      * rewrite Hp, !app_nil_r. now rewrite app_assoc.
      * apply Forall_app; split; auto.
  - (* a content frame *)
    destruct open as [r|]; cbn [option_map] in Hc; rewrite Hc in Hb.
    + set (same := match prev_img st with
                   | Some prev =>
                       if negb (is_blank_frame prev blank_threshold) then
                         diff <- calculate_frame_difference prev img ;;
                         Ok (float_lt diff diff_threshold)
                       else Ok false
                   | None => Ok false
                   end) in Hb.
      destruct same as [[|]|e]; cbn [bind negb] in Hb; [| |discriminate];
        injection Hb as <-.
      * (* same subtitle: the open run is extended *)
        exists closed, blanks, (Some (fst r, snd r ++ [(frame_num, filename)])).
        unfold pass_inv; cbn [segments current_segment prev_img option_map].
        repeat split; auto.
        -- rewrite Hp. unfold run_frames; cbn [fst snd].
           now rewrite <- !app_assoc.
        -- unfold segment_of_run, run_last, run_frames; cbn [fst snd].
           rewrite last_last. cbn [fst snd List.length].
           rewrite length_app. cbn [List.length]. do 2 f_equal. lia.
        -- unfold run_frames in *; cbn [fst snd].
           rewrite app_comm_cons. apply Forall_app; split; auto.
      * (* another subtitle: the open run is closed, a new one opens *)
        exists (closed ++ [(blanks, r)]), [], (Some ((frame_num, filename), [])).
        unfold pass_inv; cbn [segments current_segment prev_img option_map].
        repeat split; auto.
        -- rewrite Hp, blocks_frames_snoc. unfold block_frames; cbn [fst snd].
           now rewrite <- !app_assoc.
        -- rewrite map_app; cbn [map snd].
           rewrite segments_of_runs_snoc, Hs, length_map. reflexivity.
        -- rewrite length_app, Hs, segments_of_runs_length, length_map, length_app.
           reflexivity.
        -- apply Forall_app; split; auto. constructor; auto. split; auto.
        -- constructor; auto.
    + (* no open run: the previous frame, if any, was blank *)
      assert (Hsame :
        match prev_img st with
        | Some prev =>
            if negb (is_blank_frame prev blank_threshold) then
              diff <- calculate_frame_difference prev img ;;
              Ok (float_lt diff diff_threshold)
            else Ok false
        | None => Ok false
        end = Ok false)
        by (destruct (prev_img st); [rewrite Ho|]; reflexivity).
      rewrite Hsame in Hb. cbn [bind negb] in Hb. injection Hb as <-.
      exists closed, blanks, (Some ((frame_num, filename), [])).
      unfold pass_inv; cbn [segments current_segment prev_img option_map].
      repeat split; auto.
      -- rewrite Hp, app_nil_r, <- app_assoc. reflexivity.
      -- rewrite Hs, segments_of_runs_length, length_map. reflexivity.
      -- constructor; auto.
Qed.

Lemma pass_inv_loop fs : forall processed st closed blanks open st',
  pass_inv frames_dir vid blank_threshold processed st closed blanks open ->
  loop st fs = Ok st' ->
  exists closed' blanks' open',
    pass_inv frames_dir vid blank_threshold (processed ++ fs) st' closed' blanks' open'.
Proof.
  induction fs as [|f fs IH]; intros processed st closed blanks open st' Hinv Hl.
  - injection Hl as <-. rewrite app_nil_r. eauto.
  - cbn [segment_loop] in Hl.
    destruct (body st f) as [st1|e] eqn:Hb; cbn [bind] in Hl; [|discriminate].
    destruct (pass_inv_step _ _ _ _ _ _ _ Hinv Hb) as (c1 & b1 & o1 & H1).
    destruct (IH _ _ _ _ _ _ H1 Hl) as (c2 & b2 & o2 & H2).
    rewrite <- app_assoc in H2. eauto.
Qed.

(** The shape of a successful pass: the frames split into blocks of
    blank frames followed by a run of content frames, then trailing
    blank frames; the segments are those of the runs, in order. *)
Theorem segment_pass_blocks (frame_files : list frame_file) (raw : list Segment) :
  pass frame_files = Ok raw ->
  exists (blocks : list block) (trailing : list frame_file),
    frame_files = blocks_frames blocks ++ trailing /\
    raw = segments_of_runs vid 0 (map snd blocks) /\
    Forall (block_ok frames_dir blank_threshold) blocks /\
    Forall (is_blank frames_dir blank_threshold) trailing.
Proof.
  unfold segment_pass. intros H.
  destruct (loop initial_state frame_files) as [st|e] eqn:Hl;
    cbn [bind] in H; [|discriminate].
  injection H as <-.
  destruct (pass_inv_loop _ _ _ _ _ _ _ pass_inv_initial Hl)
    as (closed & blanks & open & Hp & Hs & Hc & Hcl & Hbl & Ho).
  cbn [app] in Hp. unfold close_last. rewrite Hc, Hs.
  destruct open as [r|]; cbn [option_map].
  - exists (closed ++ [(blanks, r)]), []. repeat split; auto.
    + rewrite Hp, blocks_frames_snoc, app_nil_r.
      unfold block_frames; cbn [fst snd]. reflexivity.
    + rewrite map_app; cbn [map snd].
      now rewrite segments_of_runs_snoc, length_map.
    + apply Forall_app; split; auto. constructor; auto. split; auto.
  - exists closed, blanks. repeat split; auto.
    now rewrite Hp, app_nil_r.
Qed.

End Pass.

(** ** Order of the segments *)

Lemma StronglySorted_app_inv {A : Type} (R : A -> A -> Prop) (l1 l2 : list A) :
  StronglySorted R (l1 ++ l2) ->
  StronglySorted R l1 /\ StronglySorted R l2 /\
  (forall x y, In x l1 -> In y l2 -> R x y).
Proof.
  induction l1 as [|a l1 IH]; cbn [app]; intros H.
  - repeat split; [constructor | exact H | intros x y []].
  - inversion H as [|? ? HS HF]; subst.
    destruct (IH HS) as (H1 & H2 & H3).
    rewrite Forall_app in HF. destruct HF as [HF1 HF2].
    repeat split; auto.
    + constructor; auto.
    + intros x y [<-|Hx] Hy; [|auto].
      rewrite Forall_forall in HF2. auto.
Qed.

Lemma last_In_cons {A : Type} (l : list A) (d : A) : In (last l d) (d :: l).
Proof.
  destruct l as [|a l]; [now left|]. right.
  revert a. induction l as [|b l IH]; intros a; [now left|].
  right. apply (IH b).
Qed.

Lemma run_last_In (r : run) : In (run_last r) (run_frames r).
Proof. apply last_In_cons. Qed.

Lemma segments_of_runs_In (vid : string) (rs : list run) (k : nat) (s : Segment) :
  In s (segments_of_runs vid k rs) ->
  exists r id, In r rs /\ s = segment_of_run vid id r.
Proof.
  revert k. induction rs as [|r rs IH]; intros k; cbn [segments_of_runs In].
  - tauto.
  - intros [<-|H]; [eauto|]. destruct (IH _ H) as (r' & id & Hin & ->); eauto.
Qed.

Lemma block_frames_incl (bs : list block) (b : block) (f : frame_file) :
  In b bs -> In f (block_frames b) -> In f (blocks_frames bs).
Proof.
  intros Hb Hf. unfold blocks_frames. apply in_flat_map. eauto.
Qed.

Lemma run_first_In_block (b : block) : In (fst (snd b)) (block_frames b).
Proof. unfold block_frames, run_frames. apply in_or_app. right. now left. Qed.

Section Order.
(** [R] is the order of the frame numbers along the frame list: [<=]
    in general, [<] when no number occurs twice. *)
Variable R : Z -> Z -> Prop.
Hypothesis R_le : forall x y, R x y -> x <= y.

Lemma run_span (r : run) :
  StronglySorted (fun a b : frame_file => R (fst a) (fst b)) (run_frames r) -> fst (fst r) <= fst (run_last r).
Proof.
  unfold run_frames. intros H. inversion H as [|? ? _ HF]; subst.
  destruct (run_last_In r) as [E|Hin].
  - rewrite <- E. lia.
  - rewrite Forall_forall in HF. apply R_le. exact (HF _ Hin).
Qed.

Lemma segments_chain (vid : string) (bs : list block) (trailing : list frame_file) :
  forall k,
  StronglySorted (fun a b : frame_file => R (fst a) (fst b)) (blocks_frames bs ++ trailing) ->
  Forall (fun s => start_frame s <= end_frame s)
         (segments_of_runs vid k (map snd bs)) /\
  StronglySorted (fun a b => R (end_frame a) (start_frame b))
         (segments_of_runs vid k (map snd bs)).
Proof.
  induction bs as [|[bl r] bs IH]; intros k H;
    cbn [map snd segments_of_runs].
  - split; constructor.
  - change (blocks_frames ((bl, r) :: bs))
      with (block_frames (bl, r) ++ blocks_frames bs) in H.
    unfold block_frames in H; cbn [fst snd] in H.
    rewrite <- !app_assoc in H.
    apply StronglySorted_app_inv in H as (_ & H & _).
    apply StronglySorted_app_inv in H as (Hr & Hrest & Hcross).
    destruct (IH (S k) Hrest) as [IH1 IH2].
    split; constructor; auto.
    + cbn [start_frame end_frame segment_of_run]. now apply run_span.
    + apply Forall_forall. intros s Hs.
      apply segments_of_runs_In in Hs as (r' & id & Hin & ->).
      cbn [start_frame end_frame segment_of_run].
      apply in_map_iff in Hin as (b & <- & Hb).
      apply (Hcross (run_last r) (fst (snd b))).
      * apply run_last_In.
      * apply in_or_app. left.
        apply (block_frames_incl bs b); [exact Hb | apply run_first_In_block].
Qed.

End Order.

Lemma segments_of_runs_times (vid : string) (rs : list run) (k : nat) :
  Forall (fun s => start_time s = start_frame s - 1 /\ end_time s = end_frame s - 1)
         (segments_of_runs vid k rs).
Proof.
  revert k. induction rs as [|r rs IH]; intros k; cbn [segments_of_runs];
    constructor; auto.
Qed.

Lemma StronglySorted_strict (l : list frame_file) :
  StronglySorted (fun a b => fst a <= fst b) l ->
  NoDup (map fst l) ->
  StronglySorted (fun a b => fst a < fst b) l.
Proof.
  induction 1 as [|a l HS IH HF]; cbn [map]; intros Hnd; constructor;
    inversion Hnd as [|? ? Hnotin Hnd']; subst; auto.
  rewrite Forall_forall in *. intros b Hb.
  specialize (HF _ Hb).
  assert (fst a <> fst b) by (intros E; apply Hnotin; rewrite E; now apply in_map).
  lia.
Qed.

Lemma StronglySorted_weaken {A : Type} (R1 R2 : A -> A -> Prop) (l : list A) :
  (forall a b, In a l -> In b l -> R1 a b -> R2 a b) ->
  StronglySorted R1 l -> StronglySorted R2 l.
Proof.
  intros Hw HS. induction HS as [|a l HS IH HF]; constructor.
  - apply IH. intros; apply Hw; auto; now right.
  - rewrite Forall_forall in *. intros b Hb.
    apply Hw; [now left | now right | auto].
Qed.

Lemma StronglySorted_filter {A : Type} (R : A -> A -> Prop) (p : A -> bool) (l : list A) :
  StronglySorted R l -> StronglySorted R (filter p l).
Proof.
  induction 1 as [|a l HS IH HF]; cbn [filter]; [constructor|].
  destruct (p a); auto. constructor; auto.
  rewrite Forall_forall in *. intros b Hb.
  apply filter_In in Hb as [Hb _]. auto.
Qed.

(** ** Coverage of the frames by the segments *)

Lemma covering_none (vid : string) (rs : list run) (n : Z) :
  forall k,
  Forall (fun r => n < fst (fst r) \/ fst (run_last r) < n) rs ->
  covering (segments_of_runs vid k rs) n = 0%nat.
Proof.
  induction rs as [|r rs IH]; intros k H; [reflexivity|].
  inversion H as [|? ? Hr Hrs]; subst.
  unfold covering in *. cbn [segments_of_runs filter].
  unfold in_frame_range at 1. cbn [start_frame end_frame segment_of_run].
  replace ((fst (fst r) <=? n) && (n <=? fst (run_last r))) with false.
  - now apply IH.
  - symmetry. apply andb_false_iff.
    destruct Hr as [Hr|Hr]; [left|right]; apply Z.leb_gt; exact Hr.
Qed.

Lemma run_frames_last (r : run) :
  exists l, run_frames r = l ++ [run_last r].
Proof.
  unfold run_frames, run_last. destruct r as [a l]; cbn [fst snd].
  destruct l as [|x l _] using rev_ind.
  - now exists [].
  - exists (a :: l). now rewrite last_last.
Qed.

Lemma sorted_run_bounds (r : run) (g : frame_file) :
  StronglySorted (fun a b => fst a < fst b) (run_frames r) ->
  In g (run_frames r) ->
  fst (fst r) <= fst g <= fst (run_last r).
Proof.
  intros HS Hg. split.
  - unfold run_frames in *. inversion HS as [|? ? _ HF]; subst.
    destruct Hg as [<-|Hg]; [lia|].
    rewrite Forall_forall in HF. specialize (HF _ Hg). lia.
  - destruct (run_frames_last r) as [l E]. rewrite E in HS, Hg.
    apply StronglySorted_app_inv in HS as (_ & _ & Hcross).
    apply in_app_or in Hg as [Hg|[<-|[]]]; [|lia].
    specialize (Hcross g (run_last r) Hg (or_introl eq_refl)). lia.
Qed.

Lemma covering_cons (seg : Segment) (segs : list Segment) (n : Z) :
  covering (seg :: segs) n =
  ((if in_frame_range n seg then 1 else 0) + covering segs n)%nat.
Proof. unfold covering. cbn [filter]. now destruct (in_frame_range n seg). Qed.

Lemma in_frame_range_run (vid : string) (id : Z) (r : run) (n : Z) :
  in_frame_range n (segment_of_run vid id r) = true <->
  fst (fst r) <= n <= fst (run_last r).
Proof.
  unfold in_frame_range. cbn [start_frame end_frame segment_of_run].
  rewrite andb_true_iff, !Z.leb_le. reflexivity.
Qed.

Section Coverage.
Context `{NP : NumPy}.
Variable frames_dir : Directory.
Variable blank_threshold : float.
Variable vid : string.

Lemma blank_not_content (f : frame_file) :
  is_blank frames_dir blank_threshold f ->
  is_content frames_dir blank_threshold f -> False.
Proof. unfold is_blank, is_content. congruence. Qed.

(** With frame numbers that strictly increase, a frame number lies in
    the range of the segment of its own run and of no other segment,
    and the number of a blank frame lies in no range. *)
Lemma blocks_coverage (bs : list block) (trailing : list frame_file) :
  forall k,
  StronglySorted (fun a b => fst a < fst b) (blocks_frames bs ++ trailing) ->
  Forall (block_ok frames_dir blank_threshold) bs ->
  Forall (is_blank frames_dir blank_threshold) trailing ->
  forall f, In f (blocks_frames bs ++ trailing) ->
    (is_content frames_dir blank_threshold f ->
       covering (segments_of_runs vid k (map snd bs)) (fst f) = 1%nat) /\
    (is_blank frames_dir blank_threshold f ->
       covering (segments_of_runs vid k (map snd bs)) (fst f) = 0%nat).
Proof.
  induction bs as [|[bl r] bs IH]; intros k HS Hok Htr f Hf.
  - cbn in Hf. rewrite Forall_forall in Htr.
    split; [intros Hc; exfalso; eauto using blank_not_content | reflexivity].
  - change (blocks_frames ((bl, r) :: bs))
      with (block_frames (bl, r) ++ blocks_frames bs) in HS, Hf.
    unfold block_frames in HS, Hf; cbn [fst snd] in HS, Hf.
    rewrite <- !app_assoc in HS, Hf.
    inversion Hok as [|? ? [Hbl Hrun] Hok']; subst. cbn [fst snd] in Hbl, Hrun.
    apply StronglySorted_app_inv in HS as (_ & HS & Hcross1).
    apply StronglySorted_app_inv in HS as (Hr & Hrest & Hcross2).
    cbn [map snd segments_of_runs]. rewrite covering_cons.
    assert (Hlater : forall g : frame_file,
              (forall y, In y (blocks_frames bs ++ trailing) -> fst g < fst y) ->
              covering (segments_of_runs vid (S k) (map snd bs)) (fst g) = 0%nat).
    { intros g Hg. apply covering_none. apply Forall_forall.
      intros r' Hr'. left. apply in_map_iff in Hr' as (b & <- & Hb).
      apply Hg. apply in_or_app. left.
      apply (block_frames_incl bs b); [exact Hb | apply run_first_In_block]. }
    apply in_app_or in Hf as [Hf|Hf]; [|apply in_app_or in Hf as [Hf|Hf]].
    + (* a blank frame before the run *)
      rewrite Forall_forall in Hbl.
      split; [intros Hc; exfalso; eauto using blank_not_content | intros _].
      assert (fst f < fst (fst r)) as Hlt
        by (apply (Hcross1 f (fst r)); [exact Hf | apply in_or_app; left; now left]).
      replace (in_frame_range (fst f) (segment_of_run vid (Z.of_nat k + 1) r))
        with false.
      * apply Hlater. intros y Hy. apply (Hcross1 f y Hf).
        apply in_or_app. now right.
      * symmetry. apply not_true_is_false. rewrite in_frame_range_run. lia.
    + (* a frame of the run *)
      rewrite Forall_forall in Hrun.
      split; [intros _ | intros Hb; exfalso; eauto using blank_not_content].
      replace (in_frame_range (fst f) (segment_of_run vid (Z.of_nat k + 1) r))
        with true.
      * rewrite Hlater; [reflexivity|]. intros y Hy. now apply Hcross2.
      * symmetry. rewrite in_frame_range_run. now apply sorted_run_bounds.
    + (* a later frame *)
      assert (fst (run_last r) < fst f) as Hlt
        by (apply (Hcross2 (run_last r) f); [apply run_last_In | exact Hf]).
      replace (in_frame_range (fst f) (segment_of_run vid (Z.of_nat k + 1) r))
        with false.
      * cbn [Nat.add]. now apply IH.
      * symmetry. apply not_true_is_false. rewrite in_frame_range_run. lia.
Qed.

End Coverage.

(** ** Two runs that differ in the difference threshold *)

Section Thresholds.
Context `{NP : NumPy}.
Variable frames_dir : Directory.
Variable vid : string.
Variable blank_threshold : float.
Variables t1 t2 : float.
Hypothesis t1_le_t2 : float_le t1 t2 = true.

Lemma states_rel_initial : states_rel blank_threshold initial_state initial_state.
Proof. unfold states_rel, state_safe; cbn; intuition. Qed.

Lemma states_rel_step (st1 st2 : LoopState) (f : frame_file) :
  states_rel blank_threshold st1 st2 ->
  result_rel (states_rel blank_threshold)
    (loop_body frames_dir vid t1 blank_threshold st1 f)
    (loop_body frames_dir vid t2 blank_threshold st2 f).
Proof.
  intros (Hprev & Hcur & Hsafe & Hlen).
  unfold loop_body. destruct f as [frame_num filename].
  destruct (load_image_as_array frames_dir filename) as [img|e];
    cbn [bind result_rel]; [|reflexivity].
  destruct (is_blank_frame img blank_threshold) eqn:Hblank.
  - cbn [result_rel]. unfold states_rel, state_safe, close_last in *.
    cbn [segments current_segment prev_img]. intuition.
  - rewrite <- Hprev.
    assert (Hnew : forall same2,
      (same2 = true -> current_segment st2 <> None) ->
      result_rel (states_rel blank_threshold)
        (Ok {| segments := close_last st1;
               current_segment :=
                 Some {| video_id := vid;
                         segment_id := Z.of_nat (List.length (close_last st1)) + 1;
                         start_time := frame_num - 1;
                         end_time := frame_num - 1;
                         start_frame := frame_num;
                         end_frame := frame_num;
                         frame_count := 1;
                         representative_frame := filename |};
               prev_img := Some img |})
        (is_same_subtitle <- Ok same2 ;;
         if negb is_same_subtitle then
           Ok {| segments := close_last st2;
                 current_segment :=
                   Some {| video_id := vid;
                           segment_id := Z.of_nat (List.length (close_last st2)) + 1;
                           start_time := frame_num - 1;
                           end_time := frame_num - 1;
                           start_frame := frame_num;
                           end_frame := frame_num;
                           frame_count := 1;
                           representative_frame := filename |};
                 prev_img := Some img |}
         else
           match current_segment st2 with
           | Some seg =>
               Ok {| segments := segments st2;
                     current_segment :=
                       Some {| video_id := video_id seg;
                               segment_id := segment_id seg;
                               start_time := start_time seg;
                               end_time := frame_num - 1;
                               start_frame := start_frame seg;
                               end_frame := frame_num;
                               frame_count := frame_count seg + 1;
                               representative_frame := representative_frame seg |};
                     prev_img := Some img |}
           | None => Raise none_item_assignment
           end)).
    { intros [|] Hsome; cbn [bind negb result_rel].
      - destruct (current_segment st2) as [seg|] eqn:E2;
          [|now exfalso; apply Hsome].
        unfold states_rel, state_safe, close_last in *.
        cbn [segments current_segment prev_img]. rewrite E2 in Hlen.
        rewrite !length_app in *. cbn [List.length] in *.
        repeat split; try discriminate. lia.
      - unfold states_rel, state_safe.
        cbn [segments current_segment prev_img close_last].
        rewrite !length_app. cbn [List.length].
        repeat split; try discriminate. lia. }
    destruct (prev_img st1) as [p|] eqn:Ep.
    + destruct (is_blank_frame p blank_threshold) eqn:Hp; cbn [negb].
      * apply (Hnew false). discriminate.
      * destruct (calculate_frame_difference p img) as [d|e];
          cbn [bind result_rel]; [|reflexivity].
        assert (Hopen1 : current_segment st1 <> None).
        { intros E. specialize (Hsafe E). rewrite Ep in Hsafe. congruence. }
        assert (Hopen2 : current_segment st2 <> None) by tauto.
        destruct (float_lt d t1) eqn:L1.
        -- rewrite (float_lt_le_trans _ _ _ L1 t1_le_t2). cbn [negb].
           destruct (current_segment st1) as [s1|] eqn:E1; [|congruence].
           destruct (current_segment st2) as [s2|] eqn:E2; [|congruence].
           unfold states_rel, state_safe, close_last in *.
           cbn [result_rel segments current_segment prev_img].
           rewrite E1, E2 in Hlen. rewrite !length_app in *.
           cbn [List.length] in *.
           repeat split; try discriminate. lia.
        -- cbn [negb]. apply (Hnew (float_lt d t2)). intros _. exact Hopen2.
    + apply (Hnew false). discriminate.
Qed.

End Thresholds.

Section ThresholdRuns.
Context `{NP : NumPy}.
Variable frames_dir : Directory.
Variable vid : string.
Variable blank_threshold : float.
Variables t1 t2 : float.
Hypothesis t1_le_t2 : float_le t1 t2 = true.

Lemma states_rel_loop (fs : list frame_file) : forall st1 st2,
  states_rel blank_threshold st1 st2 ->
  result_rel (states_rel blank_threshold)
    (segment_loop frames_dir vid t1 blank_threshold st1 fs)
    (segment_loop frames_dir vid t2 blank_threshold st2 fs).
Proof.
  induction fs as [|f fs IH]; intros st1 st2 Hrel; cbn [segment_loop].
  - exact Hrel.
  - pose proof (states_rel_step frames_dir vid blank_threshold t1 t2
                  t1_le_t2 st1 st2 f Hrel) as Hstep.
    destruct (loop_body frames_dir vid t1 blank_threshold st1 f) as [a1|e1];
      destruct (loop_body frames_dir vid t2 blank_threshold st2 f) as [a2|e2];
      cbn [result_rel bind] in *; auto; contradiction.
Qed.

(** A larger difference threshold never gives more segments, and it
    changes nothing to whether, and how, the pass fails. *)
Lemma segment_pass_monotone (fs : list frame_file) :
  result_rel (fun s1 s2 => (List.length s2 <= List.length s1)%nat)
    (segment_pass frames_dir vid t1 blank_threshold fs)
    (segment_pass frames_dir vid t2 blank_threshold fs).
Proof.
  unfold segment_pass.
  pose proof (states_rel_loop fs _ _ (states_rel_initial blank_threshold)) as H.
  destruct (segment_loop frames_dir vid t1 blank_threshold initial_state fs);
    destruct (segment_loop frames_dir vid t2 blank_threshold initial_state fs);
    cbn [result_rel bind] in *; auto.
  now destruct H as (_ & _ & _ & H).
Qed.

Lemma raw_segments_monotone :
  result_rel (fun s1 s2 => (List.length s2 <= List.length s1)%nat)
    (raw_segments frames_dir vid t1 blank_threshold)
    (raw_segments frames_dir vid t2 blank_threshold).
Proof.
  unfold raw_segments.
  destruct (find_frames frames_dir vid) as [fs|e]; cbn [bind].
  - apply segment_pass_monotone.
  - reflexivity.
Qed.

End ThresholdRuns.

(** ** What the whole of [segment_frames] returns *)

Section Whole.
Context `{NP : NumPy}.
Variable frames_dir : Directory.
Variable vid : string.
Variables diff_threshold blank_threshold : float.

(** The shape of the segment list before the filter. *)
Lemma raw_segments_blocks (raw : list Segment) :
  raw_segments frames_dir vid diff_threshold blank_threshold = Ok raw ->
  exists frame_files blocks trailing,
    find_frames frames_dir vid = Ok frame_files /\
    frame_files = blocks_frames blocks ++ trailing /\
    raw = segments_of_runs vid 0 (map snd blocks) /\
    Forall (block_ok frames_dir blank_threshold) blocks /\
    Forall (is_blank frames_dir blank_threshold) trailing.
Proof.
  unfold raw_segments.
  destruct (find_frames frames_dir vid) as [fs|e]; cbn [bind]; [|discriminate].
  intros H. apply segment_pass_blocks in H as (bs & tr & H).
  exists fs, bs, tr. tauto.
Qed.

Lemma segment_frames_filter (min_segment_duration : Z) :
  segment_frames frames_dir vid diff_threshold blank_threshold min_segment_duration =
  fmap (filter (keep_segment min_segment_duration))
       (raw_segments frames_dir vid diff_threshold blank_threshold).
Proof. reflexivity. Qed.

(** Segments never end before they start, and a segment ends no later
    than the next one starts. *)
Lemma raw_segments_ordered (raw : list Segment) :
  raw_segments frames_dir vid diff_threshold blank_threshold = Ok raw ->
  Forall (fun s => start_time s <= end_time s) raw /\
  StronglySorted (fun a b => end_time a <= start_time b) raw.
Proof.
  intros H.
  destruct (raw_segments_blocks raw H) as (fs & bs & tr & Hf & -> & -> & _).
  pose proof (find_frames_sorted frames_dir vid _ Hf) as HS.
  destruct (segments_chain Z.le (fun x y h => h) vid bs tr 0 HS) as [H1 H2].
  pose proof (segments_of_runs_times vid (map snd bs) 0) as Ht.
  rewrite Forall_forall in Ht. rewrite Forall_forall in H1. split.
  - apply Forall_forall. intros s Hs.
    destruct (Ht s Hs) as [-> ->]. specialize (H1 s Hs). cbn in H1. lia.
  - eapply StronglySorted_weaken; [|exact H2].
    intros a b Ha Hb Hab. cbn in Hab.
    destruct (Ht a Ha) as [_ ->]. destruct (Ht b Hb) as [-> _]. lia.
Qed.

(** With pairwise distinct frame numbers, a segment ends before the next
    one starts. *)
Lemma raw_segments_disjoint (frame_files : list frame_file) (raw : list Segment) :
  find_frames frames_dir vid = Ok frame_files ->
  NoDup (map fst frame_files) ->
  raw_segments frames_dir vid diff_threshold blank_threshold = Ok raw ->
  StronglySorted (fun a b => end_time a < start_time b) raw.
Proof.
  intros Hff Hnd H.
  destruct (raw_segments_blocks raw H) as (fs & bs & tr & Hf & E & -> & _).
  rewrite Hff in Hf. injection Hf as <-.
  pose proof (StronglySorted_strict _ (find_frames_sorted frames_dir vid _ Hff) Hnd)
    as HS. rewrite E in HS.
  destruct (segments_chain Z.lt Z.lt_le_incl vid bs tr 0 HS) as [_ H2].
  pose proof (segments_of_runs_times vid (map snd bs) 0) as Ht.
  rewrite Forall_forall in Ht.
  eapply StronglySorted_weaken; [|exact H2].
  intros a b Ha Hb Hab. cbn in Hab.
  destruct (Ht a Ha) as [_ ->]. destruct (Ht b Hb) as [-> _]. lia.
Qed.

End Whole.

Lemma filter_all {A : Type} (p : A -> bool) (l : list A) :
  Forall (fun x => p x = true) l -> filter p l = l.
Proof.
  induction 1 as [|a l Ha _ IH]; cbn [filter]; [reflexivity|].
  now rewrite Ha, IH.
Qed.

Lemma keep_segment_duration (md : Z) (seg : Segment) :
  keep_segment md seg = negb (duration seg <? md).
Proof.
  unfold keep_segment, duration. rewrite Z.geb_leb.
  destruct (Z.leb_spec md (end_time seg - start_time seg + 1));
    destruct (Z.ltb_spec (end_time seg - start_time seg + 1) md);
    try reflexivity; lia.
Qed.

Lemma count_blank_monotone `{NP : NumPy} (b1 b2 : float) (imgs : list ndarray) :
  float_le b1 b2 = true ->
  (count_blank b1 imgs <= count_blank b2 imgs)%nat.
Proof.
  intros Hle. unfold count_blank.
  induction imgs as [|img imgs IH]; cbn [filter]; [reflexivity|].
  destruct (is_blank_frame img b1) eqn:H1.
  - unfold is_blank_frame in *.
    rewrite (float_lt_le_trans _ _ _ H1 Hle). cbn [List.length]. lia.
  - destruct (is_blank_frame img b2); cbn [List.length]; lia.
Qed.

Lemma segments_of_runs_nth (vid : string) (rs : list run) :
  forall k i seg,
  nth_error (segments_of_runs vid k rs) i = Some seg ->
  segment_id seg = Z.of_nat (k + i) + 1.
Proof.
  induction rs as [|r rs IH]; intros k i seg H.
  - destruct i; discriminate.
  - destruct i as [|i]; cbn [segments_of_runs nth_error] in H.
    + injection H as <-. cbn [segment_id segment_of_run]. now rewrite Nat.add_0_r.
    + rewrite (IH _ _ _ H). f_equal. lia.
Qed.

Lemma segments_of_runs_ids_increase (vid : string) (rs : list run) :
  forall k,
  Forall (fun s => Z.of_nat k + 1 <= segment_id s) (segments_of_runs vid k rs) /\
  StronglySorted (fun a b => segment_id a < segment_id b) (segments_of_runs vid k rs).
Proof.
  induction rs as [|r rs IH]; intros k; cbn [segments_of_runs].
  - split; constructor.
  - destruct (IH (S k)) as [IH1 IH2]. split.
    + constructor; [cbn; lia|].
      eapply Forall_impl; [|exact IH1]. cbn beta. intros s Hs. lia.
    + constructor; auto.
      eapply Forall_impl; [|exact IH1]. cbn. intros s Hs. lia.
Qed.

Section Prefix.
Context `{NP : NumPy}.
Variable frames_dir : Directory.
Variable vid : string.
Variables diff_threshold blank_threshold : float.

Abbreviation body' := (loop_body frames_dir vid diff_threshold blank_threshold).
Abbreviation loop' := (segment_loop frames_dir vid diff_threshold blank_threshold).

(** A step of the loop appends to [segments], and either keeps the open
    segment open, extended, or appends it unchanged. *)
Lemma loop_body_grows (st st' : LoopState) (f : frame_file) :
  body' st f = Ok st' ->
  (segments st' = segments st /\
   match current_segment st with
   | Some c => exists c', current_segment st' = Some c' /\ same_opening c c'
   | None => True
   end) \/
  segments st' = close_last st.
Proof.
  unfold loop_body. destruct f as [n name].
  destruct (load_image_as_array frames_dir name) as [img|]; cbn [bind];
    [|discriminate].
  destruct (is_blank_frame img blank_threshold).
  { intros [= <-]. right. reflexivity. }
  destruct (match prev_img st with
            | Some prev =>
                if negb (is_blank_frame prev blank_threshold) then
                  diff <- calculate_frame_difference prev img ;;
                  Ok (float_lt diff diff_threshold)
                else Ok false
            | None => Ok false
            end) as [[|]|]; cbn [bind negb]; [| |discriminate].
  - destruct (current_segment st) as [c|]; [|discriminate].
    intros [= <-]. left. cbn [segments current_segment]. split; [reflexivity|].
    eexists; split; [reflexivity|]. unfold same_opening; cbn. tauto.
  - intros [= <-]. right. reflexivity.
Qed.

(** The segments already emitted stay where they are. *)
Lemma segment_loop_prefix (fs : list frame_file) : forall st st',
  loop' st fs = Ok st' ->
  exists tail, close_last st' = segments st ++ tail.
Proof.
  induction fs as [|f fs IH]; intros st st' H; cbn [segment_loop] in H.
  - injection H as <-. unfold close_last.
    destruct (current_segment st); [eauto | exists []; now rewrite app_nil_r].
  - destruct (body' st f) as [st1|] eqn:Hb; cbn [bind] in H; [|discriminate].
    destruct (IH _ _ H) as [tail Ht]. rewrite Ht.
    destruct (loop_body_grows _ _ _ Hb) as [[-> _]| ->]; [eauto|].
    unfold close_last. destruct (current_segment st); [|eauto].
    rewrite <- app_assoc. eauto.
Qed.

(** The open segment is emitted right after them, with the start it
    was opened with. *)
Lemma segment_loop_open (fs : list frame_file) : forall st st' c,
  current_segment st = Some c ->
  loop' st fs = Ok st' ->
  exists c' tail, close_last st' = segments st ++ c' :: tail /\ same_opening c c'.
Proof.
  induction fs as [|f fs IH]; intros st st' c Hc H; cbn [segment_loop] in H.
  - injection H as <-. unfold close_last. rewrite Hc.
    exists c, []. split; [reflexivity|]. unfold same_opening; tauto.
  - destruct (body' st f) as [st1|] eqn:Hb; cbn [bind] in H; [|discriminate].
    destruct (loop_body_grows _ _ _ Hb) as [[Hs Hcur]|Hs].
    + rewrite Hc in Hcur. destruct Hcur as (c1 & Hc1 & Hsame).
      destruct (IH _ _ _ Hc1 H) as (c' & tail & Ht & Hsame').
      exists c', tail. rewrite Ht, Hs. split; [reflexivity|].
      unfold same_opening in *. intuition congruence.
    + destruct (segment_loop_prefix _ _ _ H) as [tail Ht].
      rewrite Ht, Hs. unfold close_last. rewrite Hc.
      exists c, tail. rewrite <- app_assoc. split; [reflexivity|].
      unfold same_opening; tauto.
Qed.

(** A content frame that has no previous frame, or a blank one, opens a
    segment; [calculate_frame_difference] is not called. *)
Lemma loop_body_opens (st : LoopState) (n : Z) (name : string) (img : ndarray) :
  load_image_as_array frames_dir name = Ok img ->
  is_blank_frame img blank_threshold = false ->
  match prev_img st with
  | Some p => is_blank_frame p blank_threshold = true
  | None => True
  end ->
  body' st (n, name) =
  Ok {| segments := close_last st;
        current_segment :=
          Some {| video_id := vid;
                  segment_id := Z.of_nat (List.length (close_last st)) + 1;
                  start_time := n - 1;
                  end_time := n - 1;
                  start_frame := n;
                  end_frame := n;
                  frame_count := 1;
                  representative_frame := name |};
        prev_img := Some img |}.
Proof.
  intros Hl Hb Hp. unfold loop_body. rewrite Hl. cbn [bind]. rewrite Hb.
  destruct (prev_img st) as [p|]; [rewrite Hp|]; reflexivity.
Qed.

(** After a blank frame no segment is open. *)
Lemma loop_body_blank (st st' : LoopState) (f : frame_file) :
  is_blank frames_dir blank_threshold f ->
  body' st f = Ok st' ->
  segments st' = close_last st /\ current_segment st' = None /\
  exists p, prev_img st' = Some p /\ is_blank_frame p blank_threshold = true.
Proof.
  unfold is_blank, classify, loop_body. destruct f as [n name]. cbn [snd].
  destruct (load_image_as_array frames_dir name) as [img|]; [|discriminate].
  intros [= Hb]. cbn [bind]. rewrite Hb. intros [= <-].
  cbn [segments current_segment prev_img]. eauto.
Qed.

End Prefix.

(** * The claims *)

(** ** C1: threshold monotonicity *)

Lemma segment_frames_all_kept `{NP : NumPy} (frames_dir : Directory) (vid : string)
    (diff_threshold blank_threshold : float) (min_segment_duration : Z) :
  min_segment_duration <= 1 ->
  segment_frames frames_dir vid diff_threshold blank_threshold min_segment_duration
  = raw_segments frames_dir vid diff_threshold blank_threshold.
Proof.
  intros Hmd. unfold segment_frames.
  destruct (raw_segments frames_dir vid diff_threshold blank_threshold)
    as [raw|e] eqn:Hraw; cbn [bind]; [|reflexivity].
  f_equal. apply filter_all.
  destruct (raw_segments_ordered _ _ _ _ _ Hraw) as [Hle _].
  eapply Forall_impl; [|exact Hle]. cbn beta. intros s Hs.
  unfold keep_segment. rewrite Z.geb_leb. apply Z.leb_le. lia.
Qed.

(** C1, as stated, fails: with [min_segment_duration = 2] the thresholds
    5 <= 15 give no segment and one segment.  Under threshold 5 the two
    frames are two segments of one second, both dropped by the filter;
    under threshold 15 they are one segment of two seconds, which stays. *)
Lemma larger_diff_threshold_more_segments :
  float_le Frames.d5 Frames.d15 = true /\
  TwoPixel.run two_close_frames "v" Frames.d5 Frames.b30 2 = Ok [] /\
  TwoPixel.run two_close_frames "v" Frames.d15 Frames.b30 2 =
    Ok [ {| video_id := "v"; segment_id := 1;
            start_time := 0; end_time := 1;
            start_frame := 1; end_frame := 2;
            frame_count := 2; representative_frame := "v_0001.jpg" |} ].
Proof. repeat split. Qed.

(** C1, amended.  For thresholds [t1 <= t2] the segment list before the
    minimum-duration filter is not longer with [t2] than with [t1] (and
    the run fails with [t2] exactly as it fails with [t1]); the same holds
    of the returned list when [min_segment_duration <= 1], the default.
    For [b1 <= b2] no fewer frames are classified blank with [b2] than
    with [b1]. *)
Theorem threshold_monotonicity (NP : NumPy) (frames_dir : Directory) (vid : string)
    (t1 t2 b1 b2 blank_threshold : float) (min_segment_duration : Z)
    (imgs : list ndarray) :
  float_le t1 t2 = true ->
  float_le b1 b2 = true ->
  result_rel (fun s1 s2 => (List.length s2 <= List.length s1)%nat)
    (raw_segments frames_dir vid t1 blank_threshold)
    (raw_segments frames_dir vid t2 blank_threshold) /\
  (min_segment_duration <= 1 ->
   result_rel (fun s1 s2 => (List.length s2 <= List.length s1)%nat)
     (segment_frames frames_dir vid t1 blank_threshold min_segment_duration)
     (segment_frames frames_dir vid t2 blank_threshold min_segment_duration)) /\
  (count_blank b1 imgs <= count_blank b2 imgs)%nat.
Proof.
  intros Ht Hb. split; [|split].
  - now apply raw_segments_monotone.
  - intros Hmd. rewrite !segment_frames_all_kept by exact Hmd.
    now apply raw_segments_monotone.
  - now apply count_blank_monotone.
Qed.

Lemma threshold_monotonicity_witness :
  float_le Frames.d5 Frames.d15 = true /\
  float_le Frames.d15 Frames.b30 = true /\
  result_rel (fun s1 s2 => (List.length s2 <= List.length s1)%nat)
    (TwoPixel.run_raw two_close_frames "v" Frames.d5 Frames.b30)
    (TwoPixel.run_raw two_close_frames "v" Frames.d15 Frames.b30) /\
  (1 <= 1 ->
   result_rel (fun s1 s2 => (List.length s2 <= List.length s1)%nat)
     (TwoPixel.run two_close_frames "v" Frames.d5 Frames.b30 1)
     (TwoPixel.run two_close_frames "v" Frames.d15 Frames.b30 1)) /\
  (@count_blank TwoPixel.numpy Frames.d15 [Frames.text_a; Frames.no_text]
   <= @count_blank TwoPixel.numpy Frames.b30 [Frames.text_a; Frames.no_text])%nat.
Proof.
  split; [reflexivity|]. split; [reflexivity|].
  apply (threshold_monotonicity TwoPixel.numpy
           (TwoPixel.directory two_close_frames) "v"
           Frames.d5 Frames.d15 Frames.d15 Frames.b30 Frames.b30 1
           [Frames.text_a; Frames.no_text]); reflexivity.
Defined.

(** ** C2 and C6: coverage and order, and frame numbers that occur twice *)

(** With pairwise distinct frame numbers every content frame lies in the
    frame range of exactly one raw segment and every blank frame in the
    range of none. *)
Lemma frames_covered_once `{NP : NumPy} (frames_dir : Directory) (vid : string)
    (diff_threshold blank_threshold : float)
    (frame_files : list frame_file) (raw : list Segment) :
  find_frames frames_dir vid = Ok frame_files ->
  NoDup (map fst frame_files) ->
  raw_segments frames_dir vid diff_threshold blank_threshold = Ok raw ->
  forall f, In f frame_files ->
    (is_content frames_dir blank_threshold f -> covering raw (fst f) = 1%nat) /\
    (is_blank frames_dir blank_threshold f -> covering raw (fst f) = 0%nat).
Proof.
  intros Hff Hnd Hraw f Hf.
  destruct (raw_segments_blocks _ _ _ _ _ Hraw)
    as (fs & bs & tr & Hfs & E & -> & Hok & Htr).
  rewrite Hff in Hfs. injection Hfs as <-.
  pose proof (StronglySorted_strict _ (find_frames_sorted frames_dir vid _ Hff) Hnd)
    as HS.
  rewrite E in HS, Hf.
  exact (blocks_coverage frames_dir blank_threshold vid bs tr 0 HS Hok Htr f Hf).
Qed.

(** With pairwise distinct frame numbers the returned segments do not
    overlap and their start times strictly increase. *)
Lemma returned_segments_disjoint `{NP : NumPy} (frames_dir : Directory) (vid : string)
    (diff_threshold blank_threshold : float) (min_segment_duration : Z)
    (frame_files : list frame_file) (out : list Segment) :
  find_frames frames_dir vid = Ok frame_files ->
  NoDup (map fst frame_files) ->
  segment_frames frames_dir vid diff_threshold blank_threshold min_segment_duration
    = Ok out ->
  StronglySorted (fun a b => end_time a < start_time b) out /\
  StronglySorted (fun a b => start_time a < start_time b) out.
Proof.
  intros Hff Hnd Hout. rewrite segment_frames_filter in Hout.
  destruct (raw_segments frames_dir vid diff_threshold blank_threshold)
    as [raw|] eqn:Hraw; cbn in Hout; [|discriminate].
  injection Hout as <-.
  pose proof (raw_segments_disjoint _ _ _ _ _ _ Hff Hnd Hraw) as Hd.
  destruct (raw_segments_ordered _ _ _ _ _ Hraw) as [Hle _].
  split; apply StronglySorted_filter; [exact Hd|].
  eapply StronglySorted_weaken; [|exact Hd].
  intros a b Ha _ Hab. rewrite Forall_forall in Hle. specialize (Hle a Ha).
  cbn beta in *. lia.
Qed.

(** C2, evaluated where the code departs from it.  The directory holds
    the names "v_0001.jpg" and "v_0001.jpg" followed by a newline.  Both
    names are frames, number 1; two different subtitles give two raw
    segments with frame range 1 to 1, so the content frame lies in two
    ranges, where C2 says one.  When the second file is blank, the blank
    frame, number 1, lies in the range of the segment of the first, where
    C2 says none.  [frames_covered_once] is C2 for directories in which
    no frame number occurs twice. *)
Theorem frame_number_twice_coverage :
  @find_frames TwoPixel.numpy (TwoPixel.directory twice_frame_1) "v"
    = Ok [(1, "v_0001.jpg"); (1, newline_name)] /\
  classify (TwoPixel.directory twice_frame_1) Frames.b30 (1, "v_0001.jpg")
    = Some false /\
  TwoPixel.run_raw twice_frame_1 "v" Frames.d15 Frames.b30
    = Ok [first_of_twice; second_of_twice] /\
  covering [first_of_twice; second_of_twice] 1 = 2%nat /\
  classify (TwoPixel.directory twice_frame_1_blank) Frames.b30 (1, newline_name)
    = Some true /\
  TwoPixel.run_raw twice_frame_1_blank "v" Frames.d15 Frames.b30
    = Ok [first_of_twice] /\
  covering [first_of_twice] 1 = 1%nat.
Proof. repeat split. Qed.

(** C6, evaluated where the code departs from it.  In the directory with
    the names "v_0001.jpg" and "v_0001.jpg" followed by a newline, two
    different subtitles give two returned segments with the same start
    time, the first of which does not end before the second starts, where
    C6 says that start times strictly increase and segments do not
    overlap.  [returned_segments_disjoint] is C6 for directories in which
    no frame number occurs twice. *)
Theorem frame_number_twice_order :
  TwoPixel.run twice_frame_1 "v" Frames.d15 Frames.b30 1
    = Ok [first_of_twice; second_of_twice] /\
  start_time second_of_twice = start_time first_of_twice /\
  start_time second_of_twice <= end_time first_of_twice.
Proof. repeat split. cbn. lia. Qed.

(** *** When frame numbers are pairwise distinct *)

Lemma digit_value_inj (c c' : ascii) : digit_value c = digit_value c' -> c = c'.
Proof.
  unfold digit_value. intros H.
  assert (nat_of_ascii c = nat_of_ascii c') as E by lia.
  rewrite <- (ascii_nat_embedding c), <- (ascii_nat_embedding c'). now rewrite E.
Qed.

Lemma int_digits_inj (s : string) : forall (s' : string) (acc acc' : Z),
  String.length s = String.length s' ->
  all_digits s = true -> all_digits s' = true ->
  int_digits acc s = int_digits acc' s' ->
  acc = acc' /\ s = s'.
Proof.
  induction s as [|c s IH]; intros [|c' s'] acc acc' Hlen Hd Hd' E;
    try discriminate Hlen.
  - cbn in E. auto.
  - cbn [all_digits] in Hd, Hd'.
    apply andb_true_iff in Hd as [Hc Hs]. apply andb_true_iff in Hd' as [Hc' Hs'].
    injection Hlen as Hlen. cbn [int_digits] in E.
    destruct (IH _ _ _ Hlen Hs Hs' E) as [Hacc ->].
    apply is_digit_value in Hc, Hc'.
    assert (acc = acc' /\ digit_value c = digit_value c') as [-> Hv] by lia.
    now rewrite (digit_value_inj _ _ Hv).
Qed.

Lemma string_append_assoc (a b c : string) :
  ((a ++ b) ++ c)%string = (a ++ b ++ c)%string.
Proof. induction a as [|x a IH]; cbn; [reflexivity|]. now rewrite IH. Qed.

Lemma collect_frames_distinct (vid : string) (names : list string) :
  NoDup names ->
  Forall (fun name => ~ ends_with_newline name) names ->
  NoDup (map fst (collect_frames (frame_pattern vid) names)).
Proof.
  induction 1 as [|name names Hnotin Hnd IH]; intros Hall; cbn [collect_frames].
  - constructor.
  - inversion Hall as [|? ? Hname Hrest]; subst.
    destruct (re_match (frame_pattern vid) name) as [[|g gs]|] eqn:Hm; auto.
    cbn [map fst]. constructor; auto.
    intros Hin. apply in_map_iff in Hin as ([n name'] & Hn & Hin).
    cbn [fst] in Hn. subst n.
    apply collect_frames_spec in Hin as [Hin' (d' & tail' & Hl' & Hd' & Ht' & Hs' & Hn')].
    cbn [fst snd] in *.
    apply frame_pattern_match in Hm as (d & tail & [= -> ->] & Hl & Hd & Ht & Hs).
    assert (tail = EmptyString) as ->.
    { destruct Ht as [->| ->]; [reflexivity|]. exfalso. apply Hname.
      exists (vid ++ "_" ++ d ++ ".jpg")%string. rewrite Hs.
      now rewrite !string_append_assoc. }
    assert (tail' = EmptyString) as ->.
    { destruct Ht' as [->| ->]; [reflexivity|]. exfalso.
      rewrite Forall_forall in Hrest. apply (Hrest _ Hin').
      exists (vid ++ "_" ++ d' ++ ".jpg")%string. rewrite Hs'.
      now rewrite !string_append_assoc. }
    unfold py_int in Hn'.
    destruct (int_digits_inj d' d 0 0) as [_ ->]; auto; [congruence|].
    apply Hnotin. now rewrite Hs, <- Hs'.
Qed.

(** In a directory where no name ends in a newline, no frame number
    occurs twice. *)
Lemma find_frames_distinct `{NP : NumPy} (frames_dir : Directory) (vid : string)
    (frame_files : list frame_file) :
  NoDup (os_listdir frames_dir) ->
  Forall (fun name => ~ ends_with_newline name) (os_listdir frames_dir) ->
  find_frames frames_dir vid = Ok frame_files ->
  NoDup (map fst frame_files).
Proof.
  intros Hnd Hall. unfold find_frames.
  destruct (collect_frames _ _) as [|x l] eqn:E; [discriminate|].
  intros [= <-]. rewrite <- E.
  eapply Permutation_NoDup;
    [apply Permutation_map, FrameSort.Permuted_sort|].
  apply collect_frames_distinct.
  - eapply Permutation_NoDup; [apply StringSort.Permuted_sort | exact Hnd].
  - rewrite Forall_forall in *. intros name Hin. apply Hall.
    now apply StringSort_In.
Qed.

(** ** C3: segment ids *)

(** C3. The i-th segment emitted (counting from 0) carries the id [i + 1],
    the number of segments emitted before it plus one; in the returned
    list the ids strictly increase, and the start times never decrease, so
    the order of the list is that of the ids and that of the start
    times. *)
Theorem segment_ids_sequential (NP : NumPy) (frames_dir : Directory) (vid : string)
    (diff_threshold blank_threshold : float) (min_segment_duration : Z)
    (raw out : list Segment) :
  raw_segments frames_dir vid diff_threshold blank_threshold = Ok raw ->
  segment_frames frames_dir vid diff_threshold blank_threshold min_segment_duration
    = Ok out ->
  (forall i seg, nth_error raw i = Some seg -> segment_id seg = Z.of_nat i + 1) /\
  StronglySorted (fun a b => segment_id a < segment_id b) out /\
  StronglySorted (fun a b => start_time a <= start_time b) out.
Proof.
  intros Hraw Hout.
  rewrite segment_frames_filter, Hraw in Hout. injection Hout as <-.
  destruct (raw_segments_blocks _ _ _ _ _ Hraw) as (fs & bs & tr & _ & _ & E & _).
  destruct (raw_segments_ordered _ _ _ _ _ Hraw) as [Hle Hchain].
  split; [|split].
  - intros i seg Hi. rewrite E in Hi.
    now rewrite (segments_of_runs_nth _ _ _ _ _ Hi).
  - apply StronglySorted_filter. rewrite E.
    apply segments_of_runs_ids_increase.
  - apply StronglySorted_filter.
    eapply StronglySorted_weaken; [|exact Hchain].
    intros a b Ha _ Hab. rewrite Forall_forall in Hle.
    specialize (Hle a Ha). cbn beta in *. lia.
Qed.

Lemma segment_ids_sequential_witness :
  TwoPixel.run_raw scenario_frames "v" Frames.d15 Frames.b30 = Ok scenario_segments /\
  TwoPixel.run scenario_frames "v" Frames.d15 Frames.b30 1 = Ok scenario_segments /\
  (forall i seg, nth_error scenario_segments i = Some seg ->
                 segment_id seg = Z.of_nat i + 1) /\
  StronglySorted (fun a b => segment_id a < segment_id b) scenario_segments /\
  StronglySorted (fun a b => start_time a <= start_time b) scenario_segments.
Proof.
  split; [reflexivity|]. split; [reflexivity|].
  apply (segment_ids_sequential TwoPixel.numpy
           (TwoPixel.directory scenario_frames) "v" Frames.d15 Frames.b30 1);
    reflexivity.
Defined.

(** ** C4: no frames *)

(** C4, as stated, fails on the class of the exception: for an empty
    directory the script raises the built-in [ValueError]; it defines no
    [NoFramesFoundError]. *)
Lemma no_frames_error_class :
  Forall (fun name => re_match (frame_pattern "v") name = None)
         (os_listdir (TwoPixel.directory [])) /\
  TwoPixel.run [] "v" Frames.d15 Frames.b30 1
    = Raise (Exn "ValueError" "No frames found for video_id: v") /\
  exc_class (Exn "ValueError" "No frames found for video_id: v")
    <> "NoFramesFoundError".
Proof. split; [constructor|]. split; [reflexivity|discriminate]. Qed.

(** C4, amended.  If no name of the directory matches the pattern,
    [segment_frames] raises [ValueError] with the message
    "No frames found for video_id: " followed by the identifier.  It does
    so before the loop: the frame list itself is what raises, whatever the
    image files hold, and neither the raw nor the filtered segment list
    is produced. *)
Theorem no_frames_raises (NP : NumPy) (frames_dir : Directory) (vid : string)
    (diff_threshold blank_threshold : float) (min_segment_duration : Z) :
  Forall (fun name => re_match (frame_pattern vid) name = None)
         (os_listdir frames_dir) ->
  find_frames frames_dir vid
    = Raise (Exn "ValueError" ("No frames found for video_id: " ++ vid)%string) /\
  raw_segments frames_dir vid diff_threshold blank_threshold
    = Raise (Exn "ValueError" ("No frames found for video_id: " ++ vid)%string) /\
  segment_frames frames_dir vid diff_threshold blank_threshold min_segment_duration
    = Raise (Exn "ValueError" ("No frames found for video_id: " ++ vid)%string).
Proof.
  intros Hnone.
  assert (find_frames frames_dir vid = Raise (no_frames_error vid)) as Hf
    by (apply find_frames_raises; auto).
  unfold segment_frames, raw_segments. rewrite Hf. repeat split.
Qed.

Lemma no_frames_raises_witness :
  Forall (fun name => re_match (frame_pattern "v") name = None)
         (os_listdir (TwoPixel.directory other_files)) /\
  @find_frames TwoPixel.numpy (TwoPixel.directory other_files) "v"
    = Raise (Exn "ValueError" "No frames found for video_id: v") /\
  TwoPixel.run_raw other_files "v" Frames.d15 Frames.b30
    = Raise (Exn "ValueError" "No frames found for video_id: v") /\
  TwoPixel.run other_files "v" Frames.d15 Frames.b30 1
    = Raise (Exn "ValueError" "No frames found for video_id: v").
Proof.
  split; [repeat constructor|].
  apply (no_frames_raises TwoPixel.numpy (TwoPixel.directory other_files) "v"
           Frames.d15 Frames.b30 1).
  repeat constructor.
Defined.

Lemma segment_loop_snoc_blank `{NP : NumPy} (frames_dir : Directory) (vid : string)
    (diff_threshold blank_threshold : float) (pre : list frame_file) (st : LoopState) :
  (pre = [] \/ exists pre' b, pre = pre' ++ [b] /\ is_blank frames_dir blank_threshold b) ->
  segment_loop frames_dir vid diff_threshold blank_threshold initial_state pre = Ok st ->
  current_segment st = None /\
  match prev_img st with
  | Some p => is_blank_frame p blank_threshold = true
  | None => True
  end.
Proof.
  intros [->|(pre' & b & -> & Hb)] H.
  - injection H as <-. cbn. auto.
  - rewrite segment_loop_app in H.
    destruct (segment_loop frames_dir vid diff_threshold blank_threshold
                initial_state pre') as [st0|]; cbn [bind segment_loop] in H;
      [|discriminate].
    destruct (loop_body frames_dir vid diff_threshold blank_threshold st0 b)
      as [st1|] eqn:Hbody; cbn [bind] in H; [|discriminate].
    injection H as <-.
    destruct (loop_body_blank _ _ _ _ _ _ _ Hb Hbody) as (_ & Hc & p & Hp & Hbl).
    now rewrite Hc, Hp.
Qed.

(** ** C5: a blank frame forces a segment boundary *)

(** C5. Let [f] be a content frame that is the first frame or comes right
    after a blank frame.  The step the loop takes at [f] opens a segment,
    numbered one more than the segments emitted so far, that starts at
    [f]; the step is written without [calculate_frame_difference], so [f]
    is compared with no earlier frame.  When the pass succeeds, that
    segment is in the result right after the segments of the frames before
    [f], with the frame number, the time and the file name of [f].  In
    the scenario of the specification (frames 1 to 5 one subtitle, frame 6
    blank, frame 7 text) the segment of frame 7 has [segment_id = 2] and
    [start_time = 6]. *)
Theorem content_after_blank_opens_segment :
  (forall (NP : NumPy) (frames_dir : Directory) (vid : string)
          (diff_threshold blank_threshold : float)
          (pre post : list frame_file) (f : frame_file) (raw : list Segment),
     is_content frames_dir blank_threshold f ->
     (pre = [] \/
      exists pre' b, pre = pre' ++ [b] /\ is_blank frames_dir blank_threshold b) ->
     segment_pass frames_dir vid diff_threshold blank_threshold (pre ++ f :: post)
       = Ok raw ->
     exists (st : LoopState) (img : ndarray) (seg : Segment),
       segment_loop frames_dir vid diff_threshold blank_threshold initial_state pre
         = Ok st /\
       segment_pass frames_dir vid diff_threshold blank_threshold pre
         = Ok (segments st) /\
       loop_body frames_dir vid diff_threshold blank_threshold st f
         = Ok {| segments := segments st;
                 current_segment :=
                   Some {| video_id := vid;
                           segment_id := Z.of_nat (List.length (segments st)) + 1;
                           start_time := fst f - 1;
                           end_time := fst f - 1;
                           start_frame := fst f;
                           end_frame := fst f;
                           frame_count := 1;
                           representative_frame := snd f |};
                 prev_img := Some img |} /\
       nth_error raw (List.length (segments st)) = Some seg /\
       firstn (List.length (segments st)) raw = segments st /\
       segment_id seg = Z.of_nat (List.length (segments st)) + 1 /\
       start_frame seg = fst f /\
       start_time seg = fst f - 1 /\
       representative_frame seg = snd f) /\
  TwoPixel.run_raw scenario_frames "v" Frames.d15 Frames.b30 = Ok scenario_segments /\
  (exists seg, nth_error scenario_segments 1 = Some seg /\
               representative_frame seg = "v_0007.jpg" /\
               segment_id seg = 2 /\ start_time seg = 6).
Proof.
  split; [|split; [reflexivity | eexists; repeat split]].
  intros NP frames_dir vid dt bt pre post [n name] raw Hcontent Hpre Hpass.
  unfold segment_pass in Hpass. rewrite segment_loop_app in Hpass.
  destruct (segment_loop frames_dir vid dt bt initial_state pre) as [st|] eqn:Hloop;
    cbn [bind segment_loop] in Hpass; [|discriminate].
  destruct (segment_loop_snoc_blank _ _ _ _ _ _ Hpre Hloop) as [Hcur Hprev].
  assert (Hclose : close_last st = segments st)
    by (unfold close_last; now rewrite Hcur).
  unfold is_content, classify in Hcontent. cbn [snd] in Hcontent.
  destruct (load_image_as_array frames_dir name) as [img|] eqn:Hload;
    [|discriminate].
  injection Hcontent as Hblank.
  pose proof (loop_body_opens frames_dir vid dt bt st n name img Hload Hblank Hprev)
    as Hbody.
  rewrite Hclose in Hbody. rewrite Hbody in Hpass. cbn [bind] in Hpass.
  match type of Hpass with
  | bind ?m _ = _ =>
      destruct m as [st'|] eqn:Hpost; cbn [bind] in Hpass; [|discriminate]
  end.
  injection Hpass as <-.
  pose proof (fun c Hc => segment_loop_open _ _ _ _ _ _ _ c Hc Hpost) as Hopen.
  cbn [current_segment segments] in Hopen.
  destruct (Hopen _ eq_refl)
    as (seg & tail & Hraw & _ & Hid & Htime & Hframe & Hrep).
  cbn [segments video_id segment_id start_time start_frame representative_frame]
    in Hraw, Hid, Htime, Hframe, Hrep.
  exists st, img, seg. cbn [fst snd]. rewrite Hraw.
  repeat split; auto.
  - unfold segment_pass. now rewrite Hloop, <- Hclose.
  - rewrite nth_error_app2 by lia. now rewrite Nat.sub_diag.
  - rewrite firstn_app, Nat.sub_diag, firstn_all. cbn. now rewrite app_nil_r.
Qed.

Lemma content_after_blank_opens_segment_witness :
  exists seg,
    nth_error scenario_segments 1 = Some seg /\
    segment_id seg = 2 /\ start_frame seg = 7 /\ start_time seg = 6 /\
    representative_frame seg = "v_0007.jpg".
Proof.
  destruct (proj1 content_after_blank_opens_segment TwoPixel.numpy
              (TwoPixel.directory scenario_frames) "v" Frames.d15 Frames.b30
              [(1, "v_0001.jpg"); (2, "v_0002.jpg"); (3, "v_0003.jpg");
               (4, "v_0004.jpg"); (5, "v_0005.jpg"); (6, "v_0006.jpg")]
              [] (7, "v_0007.jpg") scenario_segments
              eq_refl
              (or_intror
                 (ex_intro _ [(1, "v_0001.jpg"); (2, "v_0002.jpg"); (3, "v_0003.jpg");
                              (4, "v_0004.jpg"); (5, "v_0005.jpg")]
                    (ex_intro _ (6, "v_0006.jpg") (conj eq_refl eq_refl))))
              eq_refl)
    as (st & img & seg & Hloop & _ & _ & Hnth & _ & Hid & Hframe & Htime & Hrep).
  injection Hloop as <-.
  exists seg. repeat split; assumption.
Defined.

(** ** C7: the minimum-duration filter *)

(** C7. What [segment_frames] returns is the raw segment list without the
    segments whose duration [end_time - start_time + 1] is strictly less
    than [min_segment_duration], in the same order and otherwise
    unchanged; when the pass raises, so does [segment_frames].  With
    [min_segment_duration = 2] a raw segment with start and end time 10 is
    not in the result; in the example its neighbours are returned as they
    were emitted, ids 1 and 3, neither extended over the gap. *)
Theorem min_duration_filter :
  (forall (NP : NumPy) (frames_dir : Directory) (vid : string)
          (diff_threshold blank_threshold : float) (min_segment_duration : Z),
     segment_frames frames_dir vid diff_threshold blank_threshold min_segment_duration
     = fmap (filter (fun seg => negb (duration seg <? min_segment_duration)))
            (raw_segments frames_dir vid diff_threshold blank_threshold)) /\
  (forall (NP : NumPy) (frames_dir : Directory) (vid : string)
          (diff_threshold blank_threshold : float) (raw : list Segment) (seg : Segment),
     raw_segments frames_dir vid diff_threshold blank_threshold = Ok raw ->
     In seg raw -> start_time seg = 10 -> end_time seg = 10 ->
     exists out,
       segment_frames frames_dir vid diff_threshold blank_threshold 2 = Ok out /\
       ~ In seg out /\
       (forall s, In s out <-> In s raw /\ 2 <= duration s)) /\
  TwoPixel.run_raw spike_frames "v" Frames.d15 Frames.b30
    = Ok [before_spike; spike_segment; after_spike] /\
  TwoPixel.run spike_frames "v" Frames.d15 Frames.b30 2
    = Ok [before_spike; after_spike].
Proof.
  split; [|split; [|split; reflexivity]].
  - intros NP frames_dir vid dt bt md. rewrite segment_frames_filter.
    unfold fmap. destruct (raw_segments frames_dir vid dt bt); cbn [bind];
      [|reflexivity].
    f_equal. apply filter_ext. intros s. apply keep_segment_duration.
  - intros NP frames_dir vid dt bt raw seg Hraw Hin Hs He.
    exists (filter (keep_segment 2) raw). rewrite segment_frames_filter, Hraw.
    split; [reflexivity|]. split.
    + rewrite filter_In. intros [_ Hk].
      unfold keep_segment in Hk. rewrite Hs, He in Hk. discriminate.
    + intros s. rewrite filter_In, keep_segment_duration, negb_true_iff, Z.ltb_ge.
      reflexivity.
Qed.

Lemma min_duration_filter_witness :
  exists out,
    TwoPixel.run spike_frames "v" Frames.d15 Frames.b30 2 = Ok out /\
    ~ In spike_segment out /\
    (forall s, In s out <->
               In s [before_spike; spike_segment; after_spike] /\ 2 <= duration s).
Proof.
  apply (proj1 (proj2 min_duration_filter) TwoPixel.numpy
           (TwoPixel.directory spike_frames) "v" Frames.d15 Frames.b30
           [before_spike; spike_segment; after_spike] spike_segment).
  - reflexivity.
  - right. left. reflexivity.
  - reflexivity.
  - reflexivity.
Defined.

(** ** C8: times and frame counts *)

Lemma contiguous_app (l1 l2 : list Z) :
  contiguous (l1 ++ l2) -> contiguous l1 /\ contiguous l2.
Proof.
  induction l1 as [|a l1 IH]; cbn [app]; [cbn; auto|].
  destruct l1 as [|b l1].
  - cbn [app]. destruct l2; cbn; tauto.
  - cbn [app contiguous] in *. intros [E H]. destruct (IH H). tauto.
Qed.

Lemma last_cons_default {A : Type} (l : list A) (x d d' : A) :
  last (x :: l) d = last (x :: l) d'.
Proof.
  revert x. induction l as [|y l IH]; intros x; [reflexivity|].
  change (last (y :: l) d = last (y :: l) d'). apply IH.
Qed.

Lemma contiguous_last (l : list Z) (a : Z) :
  contiguous (a :: l) -> last l a = a + Z.of_nat (List.length l).
Proof.
  revert a. induction l as [|b l IH]; intros a H.
  - cbn. lia.
  - destruct H as [-> H]. specialize (IH _ H).
    cbn [List.length]. rewrite Nat2Z.inj_succ.
    destruct l as [|c l]; [cbn; lia|].
    change (last (a + 1 :: c :: l) a) with (last (c :: l) a).
    rewrite (last_cons_default l c a (a + 1)). lia.
Qed.

Lemma last_map {A B : Type} (g : A -> B) (l : list A) (d : A) :
  last (map g l) (g d) = g (last l d).
Proof.
  induction l as [|a l IH]; [reflexivity|].
  destruct l as [|b l]; [reflexivity|]. exact IH.
Qed.

Lemma run_contiguous_count (vid : string) (id : Z) (r : run) :
  contiguous (map fst (run_frames r)) ->
  frame_count (segment_of_run vid id r)
  = end_frame (segment_of_run vid id r) - start_frame (segment_of_run vid id r) + 1.
Proof.
  destruct r as [a l].
  cbn [frame_count end_frame start_frame segment_of_run].
  unfold run_frames, run_last. cbn [map fst snd List.length].
  intros H. apply contiguous_last in H.
  rewrite last_map, length_map in H.
  unfold frame_file in *. rewrite H. lia.
Qed.

Lemma runs_contiguous_count (vid : string) (bs : list block) (trailing : list frame_file) :
  forall k,
  contiguous (map fst (blocks_frames bs ++ trailing)) ->
  Forall (fun s => frame_count s = end_frame s - start_frame s + 1)
         (segments_of_runs vid k (map snd bs)).
Proof.
  induction bs as [|[bl r] bs IH]; intros k H; cbn [map snd segments_of_runs];
    constructor.
  - apply run_contiguous_count.
    change (blocks_frames ((bl, r) :: bs))
      with (block_frames (bl, r) ++ blocks_frames bs) in H.
    unfold block_frames in H; cbn [fst snd] in H.
    rewrite <- !app_assoc, !map_app in H.
    apply contiguous_app in H as [_ H]. now apply contiguous_app in H as [H _].
  - apply IH.
    change (blocks_frames ((bl, r) :: bs))
      with (block_frames (bl, r) ++ blocks_frames bs) in H.
    rewrite <- app_assoc, map_app in H. now apply contiguous_app in H as [_ H].
Qed.

Lemma segments_of_runs_counts (vid : string) (rs : list run) (k : nat) :
  map frame_count (segments_of_runs vid k rs)
  = map (fun r => Z.of_nat (List.length (run_frames r))) rs.
Proof.
  revert k. induction rs as [|r rs IH]; intros k; cbn [map segments_of_runs];
    [reflexivity|].
  now rewrite IH.
Qed.

(** C8. Every segment of the raw list ends no earlier than it starts.
    The raw segments are those of the runs of content frames the pass
    accumulated, one segment per run, and [frame_count] is the number of
    frames of the run.  If the frame numbers are contiguous, [frame_count]
    is [end_frame - start_frame + 1].  If they are not, the two can
    differ: frames 1 and 3 give one segment of 2 frames that spans 3
    seconds. *)
Theorem segment_times_and_counts :
  (forall (NP : NumPy) (frames_dir : Directory) (vid : string)
          (diff_threshold blank_threshold : float) (raw : list Segment),
     raw_segments frames_dir vid diff_threshold blank_threshold = Ok raw ->
     Forall (fun s => end_time s >= start_time s) raw /\
     (exists frame_files blocks trailing,
        find_frames frames_dir vid = Ok frame_files /\
        frame_files = blocks_frames blocks ++ trailing /\
        Forall (block_ok frames_dir blank_threshold) blocks /\
        Forall (is_blank frames_dir blank_threshold) trailing /\
        raw = segments_of_runs vid 0 (map snd blocks) /\
        map frame_count raw
        = map (fun b => Z.of_nat (List.length (run_frames (snd b)))) blocks) /\
     (forall frame_files,
        find_frames frames_dir vid = Ok frame_files ->
        contiguous (map fst frame_files) ->
        Forall (fun s => frame_count s = end_frame s - start_frame s + 1) raw)) /\
  TwoPixel.run_raw gap_frames "v" Frames.d15 Frames.b30
    = Ok [ {| video_id := "v"; segment_id := 1;
              start_time := 0; end_time := 2; start_frame := 1; end_frame := 3;
              frame_count := 2; representative_frame := "v_0001.jpg" |} ].
Proof.
  split; [|reflexivity].
  intros NP frames_dir vid dt bt raw Hraw.
  destruct (raw_segments_ordered _ _ _ _ _ Hraw) as [Hle _].
  destruct (raw_segments_blocks _ _ _ _ _ Hraw)
    as (fs & bs & tr & Hf & Hfs & E & Hok & Htr).
  split; [|split].
  - eapply Forall_impl; [|exact Hle]. cbn beta. intros s Hs. lia.
  - exists fs, bs, tr. repeat split; auto.
    rewrite E, segments_of_runs_counts, map_map. reflexivity.
  - intros ff Hff Hc. rewrite Hf in Hff. injection Hff as <-.
    rewrite E. apply (runs_contiguous_count vid bs tr). now rewrite <- Hfs.
Qed.

Lemma segment_times_and_counts_witness :
  Forall (fun s => end_time s >= start_time s) scenario_segments /\
  Forall (fun s => frame_count s = end_frame s - start_frame s + 1) scenario_segments.
Proof.
  destruct (proj1 segment_times_and_counts TwoPixel.numpy
              (TwoPixel.directory scenario_frames) "v" Frames.d15 Frames.b30
              scenario_segments eq_refl) as (Htimes & _ & Hcount).
  split; [exact Htimes|].
  apply (Hcount [(1, "v_0001.jpg"); (2, "v_0002.jpg"); (3, "v_0003.jpg");
                 (4, "v_0004.jpg"); (5, "v_0005.jpg"); (6, "v_0006.jpg");
                 (7, "v_0007.jpg")]).
  - reflexivity.
  - cbn. repeat split.
Defined.

(** ** C9: the blank-frame classifier *)

(** C9. [is_blank_frame] answers blank exactly when the standard deviation
    of the luminance (the mean over the channels of a 3-dimensional array,
    the raw values of any other array) is strictly below the threshold,
    whose default is 30.0: a deviation of exactly 30 is not blank, one of
    29.5 is. *)
Theorem is_blank_frame_std_below_threshold :
  (forall (NP : NumPy) (img : ndarray) (blank_threshold : float),
     is_blank_frame img blank_threshold
     = float_lt (np_std (luminance img)) blank_threshold) /\
  default_blank_threshold = float_of_Z 30 /\
  @is_blank_frame TwoPixel.numpy (0, 60) (float_of_Z 30) = false /\
  @is_blank_frame TwoPixel.numpy (0, 59) (float_of_Z 30) = true.
Proof.
  split; [|repeat split].
  intros NP img bt. unfold is_blank_frame, luminance.
  destruct (shape img) as [|a [|b [|c [|d l]]]]; reflexivity.
Qed.

(** ** C10: only four-digit frame numbers *)

Lemma append_inv_head (p a b : string) : (p ++ a)%string = (p ++ b)%string -> a = b.
Proof. induction p as [|c p IH]; cbn; [auto|]. intros [= H]. auto. Qed.

Lemma string_length_append (a b : string) :
  String.length (a ++ b)%string = (String.length a + String.length b)%nat.
Proof. induction a as [|c a IH]; cbn; [reflexivity|]. now rewrite IH. Qed.

(** A name whose digit field is not four digits long does not match. *)
Lemma other_width_no_match (vid ds : string) :
  all_digits ds = true -> String.length ds <> 4%nat ->
  re_match (frame_pattern vid) (vid ++ "_" ++ ds ++ ".jpg")%string = None.
Proof.
  intros Hdig Hlen.
  destruct (re_match (frame_pattern vid) (vid ++ "_" ++ ds ++ ".jpg")%string)
    as [gs|] eqn:Hm; [exfalso|reflexivity].
  apply frame_pattern_match in Hm as (d & tail & _ & Hl & _ & Ht & E).
  apply append_inv_head in E. apply (append_inv_head "_") in E.
  assert (Hlens : String.length (ds ++ ".jpg")%string
                  = String.length (d ++ ".jpg" ++ tail)%string) by now rewrite E.
  rewrite !string_length_append, Hl in Hlens.
  destruct Ht as [-> | ->]; cbn [String.length] in Hlens; [lia|].
  destruct d as [|d1 [|d2 [|d3 [|d4 [|]]]]]; try discriminate Hl.
  destruct ds as [|c1 [|c2 [|c3 [|c4 [|c5 [|]]]]]]; cbn [String.length] in Hlens;
    try lia.
  cbn in E. injection E as _ _ _ _ E5.
  cbn [all_digits] in Hdig. rewrite !andb_true_iff in Hdig.
  destruct Hdig as (_ & _ & _ & _ & Hfifth & _). subst c5. discriminate Hfifth.
Qed.

(** C10. Every frame the loader returns comes from a name of the
    directory that is the identifier, an underscore, exactly four decimal
    digits and ".jpg" (at most followed by the newline [$] lets pass), and
    its number is the value of those digits, from 0 to 9999.  A name whose
    digit field has another width matches nothing and is in no frame list,
    without an error: in the example only "v_0001.jpg" is kept. *)
Theorem only_four_digit_frame_numbers :
  (forall (NP : NumPy) (frames_dir : Directory) (vid : string)
          (frame_files : list frame_file) (frame : frame_file),
     find_frames frames_dir vid = Ok frame_files ->
     In frame frame_files ->
     0 <= fst frame <= 9999 /\
     In (snd frame) (os_listdir frames_dir) /\
     exists d tail,
       String.length d = 4%nat /\ all_digits d = true /\
       (tail = EmptyString \/ tail = String LF EmptyString) /\
       snd frame = (vid ++ "_" ++ d ++ ".jpg" ++ tail)%string /\
       fst frame = py_int d) /\
  (forall (NP : NumPy) (frames_dir : Directory) (vid ds : string)
          (frame_files : list frame_file) (n : Z),
     all_digits ds = true -> String.length ds <> 4%nat ->
     re_match (frame_pattern vid) (vid ++ "_" ++ ds ++ ".jpg")%string = None /\
     (find_frames frames_dir vid = Ok frame_files ->
      ~ In (n, (vid ++ "_" ++ ds ++ ".jpg")%string) frame_files)) /\
  re_match (frame_pattern "v") "v_001.jpg" = None /\
  re_match (frame_pattern "v") "v_12345.jpg" = None /\
  @find_frames TwoPixel.numpy (TwoPixel.directory mixed_width_files) "v"
    = Ok [(1, "v_0001.jpg")].
Proof.
  split; [|split; [|repeat split]].
  - intros NP frames_dir vid ff frame Hff Hin.
    apply (find_frames_In frames_dir vid ff frame Hff) in Hin.
    destruct Hin as [Hname (d & tail & Hl & Hd & Ht & Hs & Hn)].
    split; [rewrite Hn; now apply py_int_four_digits|].
    split; [exact Hname|]. exists d, tail. auto.
  - intros NP frames_dir vid ds ff n Hdig Hlen.
    pose proof (other_width_no_match vid ds Hdig Hlen) as Hnone.
    split; [exact Hnone|]. intros Hff Hin.
    apply (find_frames_In frames_dir vid ff _ Hff) in Hin.
    destruct Hin as [_ (d & tail & Hl & Hd & Ht & Hs & _)]. cbn [snd] in Hs.
    assert (re_match (frame_pattern vid) (vid ++ "_" ++ ds ++ ".jpg")%string
            = Some [d]) as Hm
      by (apply frame_pattern_match; exists d, tail; auto).
    rewrite Hnone in Hm. discriminate.
Qed.

Lemma only_four_digit_frame_numbers_witness :
  0 <= 1 <= 9999 /\
  In "v_0001.jpg" (os_listdir (TwoPixel.directory mixed_width_files)) /\
  exists d tail,
    String.length d = 4%nat /\ all_digits d = true /\
    (tail = EmptyString \/ tail = String LF EmptyString) /\
    "v_0001.jpg" = ("v" ++ "_" ++ d ++ ".jpg" ++ tail)%string /\
    1 = py_int d.
Proof.
  apply (proj1 only_four_digit_frame_numbers TwoPixel.numpy
           (TwoPixel.directory mixed_width_files) "v"
           [(1, "v_0001.jpg")] (1, "v_0001.jpg")).
  - reflexivity.
  - left. reflexivity.
Defined.

(** * Further properties of [segment_frames] *)

(** ** Where segments start *)

Section Openings.
Context `{NP : NumPy}.
Variable frames_dir : Directory.
Variable vid : string.
Variables diff_threshold blank_threshold : float.

Lemma same_subtitle_continues (prev : option ndarray) (img : ndarray) (b : bool) :
  match prev with
  | Some p =>
      if negb (is_blank_frame p blank_threshold) then
        diff <- calculate_frame_difference p img ;;
        Ok (float_lt diff diff_threshold)
      else Ok false
  | None => Ok false
  end = Ok b ->
  continues_subtitle diff_threshold blank_threshold prev img = b.
Proof.
  unfold continues_subtitle. destruct prev as [p|]; [|now intros [= <-]].
  destruct (is_blank_frame p blank_threshold); cbn [negb]; [now intros [= <-]|].
  destruct (calculate_frame_difference p img); cbn [bind]; [now intros [= <-]|].
  discriminate.
Qed.

Lemma loop_body_openings (st st' : LoopState) (f : frame_file) :
  loop_body frames_dir vid diff_threshold blank_threshold st f = Ok st' ->
  exists img,
    load_image_as_array frames_dir (snd f) = Ok img /\
    prev_img st' = Some img /\
    map segment_opening (close_last st') =
    map segment_opening (close_last st) ++
      (if is_blank_frame img blank_threshold then []
       else if continues_subtitle diff_threshold blank_threshold (prev_img st) img
            then [] else [f]).
Proof.
  unfold loop_body. destruct f as [n name]. cbn [snd].
  destruct (load_image_as_array frames_dir name) as [img|]; cbn [bind];
    [|discriminate].
  intros H. exists img. split; [reflexivity|].
  destruct (is_blank_frame img blank_threshold).
  { injection H as <-. cbn [prev_img]. split; [reflexivity|].
    unfold close_last at 1. cbn [current_segment segments].
    now rewrite app_nil_r. }
  match type of H with
  | bind ?m _ = _ => destruct m as [same|] eqn:Hsame; cbn [bind] in H; [|discriminate]
  end.
  apply same_subtitle_continues in Hsame. rewrite Hsame.
  destruct same; cbn [negb] in H.
  - destruct (current_segment st) as [c|] eqn:Hc; [|discriminate].
    injection H as <-. cbn [prev_img]. split; [reflexivity|].
    unfold close_last. cbn [current_segment segments]. rewrite Hc.
    rewrite !map_app, app_nil_r. reflexivity.
  - injection H as <-. cbn [prev_img]. split; [reflexivity|].
    unfold close_last at 1. cbn [current_segment segments].
    rewrite map_app. reflexivity.
Qed.


End Openings.



(** ** Content frames and frame counts *)

Lemma py_sum_from (l : list Z) (a : Z) : fold_left Z.add l a = a + py_sum l.
Proof.
  unfold py_sum. revert a. induction l as [|x l IH]; intros a; cbn [fold_left].
  - lia.
  - rewrite (IH (a + x)), (IH (0 + x)). lia.
Qed.

Lemma py_sum_cons (x : Z) (l : list Z) : py_sum (x :: l) = x + py_sum l.
Proof. unfold py_sum at 1. cbn [fold_left]. now rewrite py_sum_from. Qed.

Lemma py_sum_app (l1 l2 : list Z) : py_sum (l1 ++ l2) = py_sum l1 + py_sum l2.
Proof.
  induction l1 as [|x l1 IH]; cbn [app]; [reflexivity|].
  rewrite !py_sum_cons, IH. lia.
Qed.

Section ContentFrames.
Context `{NP : NumPy}.
Variable frames_dir : Directory.
Variable blank_threshold : float.

Lemma filter_content_blank (l : list frame_file) :
  Forall (is_blank frames_dir blank_threshold) l ->
  filter (content_frame frames_dir blank_threshold) l = [].
Proof.
  induction 1 as [|f l Hf _ IH]; [reflexivity|]. cbn [filter].
  unfold content_frame at 1. unfold is_blank in Hf. now rewrite Hf.
Qed.

Lemma filter_content_content (l : list frame_file) :
  Forall (is_content frames_dir blank_threshold) l ->
  filter (content_frame frames_dir blank_threshold) l = l.
Proof.
  induction 1 as [|f l Hf _ IH]; [reflexivity|]. cbn [filter].
  unfold content_frame at 1. unfold is_content in Hf. now rewrite Hf, IH.
Qed.

(** The content frames of the frame list are the frames of the runs, in
    order. *)
Lemma blocks_content_frames (bs : list block) (trailing : list frame_file) :
  Forall (block_ok frames_dir blank_threshold) bs ->
  Forall (is_blank frames_dir blank_threshold) trailing ->
  filter (content_frame frames_dir blank_threshold) (blocks_frames bs ++ trailing)
  = flat_map run_frames (map snd bs).
Proof.
  intros Hok Htr. induction Hok as [|[bl r] bs [Hbl Hr] _ IH].
  - cbn. now apply filter_content_blank.
  - change (blocks_frames ((bl, r) :: bs))
      with (block_frames (bl, r) ++ blocks_frames bs).
    unfold block_frames. cbn [fst snd map flat_map] in *.
    rewrite <- !app_assoc, filter_app, filter_app, IH.
    now rewrite (filter_content_blank _ Hbl), (filter_content_content _ Hr).
Qed.

End ContentFrames.

Lemma segments_of_runs_total_count (vid : string) (rs : list run) (k : nat) :
  py_sum (map frame_count (segments_of_runs vid k rs))
  = Z.of_nat (List.length (flat_map run_frames rs)).
Proof.
  revert k. induction rs as [|r rs IH]; intros k; [reflexivity|].
  cbn [segments_of_runs map flat_map]. rewrite py_sum_cons, IH, length_app.
  cbn [frame_count segment_of_run]. lia.
Qed.

(** X2. No content frame is lost and none is counted twice: the
    [frame_count]s of the raw segments add up to the number of frames of
    the frame list that load and are not blank, and every segment counts
    at least one frame. *)
Theorem frame_counts_add_up (NP : NumPy) (frames_dir : Directory)
    (vid : string) (diff_threshold blank_threshold : float)
    (frame_files : list frame_file) (raw : list Segment) :
  find_frames frames_dir vid = Ok frame_files ->
  raw_segments frames_dir vid diff_threshold blank_threshold = Ok raw ->
  py_sum (map frame_count raw)
    = Z.of_nat (count_content frames_dir blank_threshold frame_files) /\
  Forall (fun seg => 1 <= frame_count seg) raw.
Proof.
  intros Hff Hraw.
  destruct (raw_segments_blocks _ _ _ _ _ Hraw)
    as (fs & bs & tr & Hfs & E & -> & Hok & Htr).
  rewrite Hff in Hfs. injection Hfs as <-. split.
  - unfold count_content.
    rewrite E, (blocks_content_frames _ _ _ _ Hok Htr).
    apply segments_of_runs_total_count.
  - apply Forall_forall. intros seg Hin.
    apply segments_of_runs_In in Hin as (r & id & _ & ->).
    cbn [frame_count segment_of_run run_frames List.length]. lia.
Qed.

Lemma frame_counts_add_up_witness :
  py_sum (map frame_count scenario_segments)
    = Z.of_nat (@count_content TwoPixel.numpy (TwoPixel.directory scenario_frames)
                  Frames.b30
                  [(1, "v_0001.jpg"); (2, "v_0002.jpg"); (3, "v_0003.jpg");
                   (4, "v_0004.jpg"); (5, "v_0005.jpg"); (6, "v_0006.jpg");
                   (7, "v_0007.jpg")]) /\
  Forall (fun seg => 1 <= frame_count seg) scenario_segments.
Proof.
  apply (frame_counts_add_up TwoPixel.numpy (TwoPixel.directory scenario_frames)
           "v" Frames.d15 Frames.b30); reflexivity.
Defined.

(** X3. The raw segment list is empty exactly when every frame is blank:
    an all-blank video gives no segment, and one content frame is enough
    for a segment. *)
Theorem no_segment_iff_all_blank (NP : NumPy) (frames_dir : Directory)
    (vid : string) (diff_threshold blank_threshold : float)
    (frame_files : list frame_file) (raw : list Segment) :
  find_frames frames_dir vid = Ok frame_files ->
  raw_segments frames_dir vid diff_threshold blank_threshold = Ok raw ->
  (raw = [] <-> Forall (is_blank frames_dir blank_threshold) frame_files).
Proof.
  intros Hff Hraw.
  destruct (raw_segments_blocks _ _ _ _ _ Hraw)
    as (fs & bs & tr & Hfs & E & -> & Hok & Htr).
  rewrite Hff in Hfs. injection Hfs as <-. subst frame_files.
  destruct bs as [|[bl r] bs]; cbn [map segments_of_runs].
  - split; [intros _; exact Htr | reflexivity].
  - split; [discriminate|]. intros Hall. exfalso.
    inversion Hok as [|? ? [_ Hr] _]; subst. cbn [snd] in Hr.
    rewrite Forall_forall in Hall.
    assert (In (fst r) (blocks_frames ((bl, r) :: bs) ++ tr)) as Hin.
    { apply in_or_app. left.
      apply (block_frames_incl _ (bl, r)); [now left|].
      exact (run_first_In_block (bl, r)). }
    inversion Hr as [|? ? Hc _]; subst.
    exact (blank_not_content _ _ _ (Hall _ Hin) Hc).
Qed.

Lemma no_segment_iff_all_blank_witness :
  (@nil Segment = [] <->
   Forall (is_blank (TwoPixel.directory blank_only_frames) Frames.b30)
          [(1, "v_0001.jpg"); (2, "v_0002.jpg")]).
Proof.
  apply (no_segment_iff_all_blank TwoPixel.numpy
           (TwoPixel.directory blank_only_frames) "v" Frames.d15 Frames.b30);
    reflexivity.
Defined.

(** ** Runs of blank frames and runs of one subtitle *)

Section Computing.
Context `{NP : NumPy}.
Variable frames_dir : Directory.
Variable vid : string.
Variables diff_threshold blank_threshold : float.

Abbreviation step := (loop_body frames_dir vid diff_threshold blank_threshold).
Abbreviation steps := (segment_loop frames_dir vid diff_threshold blank_threshold).

Lemma loop_body_at_blank (st : LoopState) (f : frame_file) :
  is_blank frames_dir blank_threshold f ->
  exists st', step st f = Ok st' /\ close_last st' = close_last st /\ after_blank blank_threshold st'.
Proof.
  unfold is_blank, classify, loop_body. destruct f as [n name]. cbn [snd].
  destruct (load_image_as_array frames_dir name) as [img|]; [|discriminate].
  intros [= Hb]. cbn [bind]. rewrite Hb. eexists. split; [reflexivity|].
  unfold after_blank, close_last. cbn [segments current_segment prev_img]. auto.
Qed.

(** Blank frames leave the list of segments as it is once the open
    segment is counted. *)
Lemma segment_loop_blanks (bl : list frame_file) : forall st,
  Forall (is_blank frames_dir blank_threshold) bl ->
  exists st',
    steps st bl = Ok st' /\ close_last st' = close_last st /\
    (after_blank blank_threshold st -> after_blank blank_threshold st') /\
    (bl <> [] -> after_blank blank_threshold st').
Proof.
  induction bl as [|b bl IH]; intros st Hall; cbn [segment_loop].
  - exists st. split; [reflexivity|]. split; [reflexivity|].
    split; [auto|]. intros H. now contradiction H.
  - inversion Hall as [|? ? Hb Hrest]; subst.
    destruct (loop_body_at_blank st b Hb) as (st1 & Hstep & Hclose & Hafter).
    rewrite Hstep. cbn [bind].
    destruct (IH st1 Hrest) as (st' & Hloop & Hclose' & Hkeep & _).
    exists st'. split; [exact Hloop|]. split; [congruence|]. split; auto.
Qed.


End Computing.

(** X4. One content frame among blank frames: whatever the difference
    threshold, the pass returns exactly one segment, which starts and
    ends at that frame, counts one frame and lasts one second;
    [segment_frames] returns it when [min_segment_duration <= 1] and
    returns the empty list otherwise. *)
Theorem lone_content_frame (NP : NumPy) (frames_dir : Directory) (vid : string)
    (diff_threshold blank_threshold : float) (min_segment_duration : Z)
    (before after : list frame_file) (f : frame_file) :
  find_frames frames_dir vid = Ok (before ++ f :: after) ->
  Forall (is_blank frames_dir blank_threshold) before ->
  is_content frames_dir blank_threshold f ->
  Forall (is_blank frames_dir blank_threshold) after ->
  raw_segments frames_dir vid diff_threshold blank_threshold
    = Ok [segment_of_run vid 1 (f, [])] /\
  duration (segment_of_run vid 1 (f, [])) = 1 /\
  segment_frames frames_dir vid diff_threshold blank_threshold min_segment_duration
    = Ok (if min_segment_duration <=? 1 then [segment_of_run vid 1 (f, [])] else []).
Proof.
  intros Hff Hbefore Hf Hafter.
  assert (Hraw : raw_segments frames_dir vid diff_threshold blank_threshold
                 = Ok [segment_of_run vid 1 (f, [])]).
  { unfold raw_segments. rewrite Hff. cbn [bind]. unfold segment_pass.
    rewrite segment_loop_app.
    destruct (segment_loop_blanks frames_dir vid diff_threshold blank_threshold
                before initial_state Hbefore)
      as (st1 & Hloop1 & Hclose1 & Hkeep & _).
    rewrite Hloop1. cbn [bind segment_loop].
    destruct (Hkeep (conj eq_refl I)) as [Hcur Hprev].
    unfold is_content, classify in Hf. destruct f as [n name]. cbn [snd] in Hf.
    destruct (load_image_as_array frames_dir name) as [img|] eqn:Hload;
      [|discriminate].
    injection Hf as Hblank.
    rewrite (loop_body_opens frames_dir vid diff_threshold blank_threshold
               st1 n name img Hload Hblank Hprev).
    cbn [bind]. rewrite Hclose1. cbn [close_last initial_state current_segment segments].
    match goal with
    | |- bind (segment_loop _ _ _ _ ?st2 after) _ = _ =>
        destruct (segment_loop_blanks frames_dir vid diff_threshold blank_threshold
                    after st2 Hafter) as (st3 & Hloop3 & Hclose3 & _)
    end.
    rewrite Hloop3. cbn [bind]. rewrite Hclose3. reflexivity. }
  split; [exact Hraw|]. split.
  - unfold duration. cbn. lia.
  - rewrite segment_frames_filter, Hraw. cbn [fmap bind filter].
    unfold keep_segment. cbn [end_time start_time segment_of_run run_last last fst snd].
    rewrite Z.geb_leb.
    replace (fst f - 1 - (fst f - 1) + 1) with 1 by lia. 
    destruct (min_segment_duration <=? 1); reflexivity.
Qed.

Lemma lone_content_frame_witness :
  TwoPixel.run_raw lone_text_frames "v" Frames.d15 Frames.b30
    = Ok [segment_of_run "v" 1 ((2, "v_0002.jpg"), [])] /\
  duration (segment_of_run "v" 1 ((2, "v_0002.jpg"), [])) = 1 /\
  TwoPixel.run lone_text_frames "v" Frames.d15 Frames.b30 2
    = Ok (if 2 <=? 1 then [segment_of_run "v" 1 ((2, "v_0002.jpg"), [])] else []).
Proof.
  apply (lone_content_frame TwoPixel.numpy (TwoPixel.directory lone_text_frames)
           "v" Frames.d15 Frames.b30 2
           [(1, "v_0001.jpg")] [(3, "v_0003.jpg"); (4, "v_0004.jpg")]
           (2, "v_0002.jpg")).
  - reflexivity.
  - repeat constructor.
  - reflexivity.
  - repeat constructor.
Defined.



(** ** How the pass fails *)

Section Failing.
Context `{NP : NumPy}.
Variable frames_dir : Directory.
Variable vid : string.
Variables diff_threshold blank_threshold : float.

Lemma block_frame_classified (bs : list block) (trailing : list frame_file)
    (f : frame_file) :
  Forall (block_ok frames_dir blank_threshold) bs ->
  Forall (is_blank frames_dir blank_threshold) trailing ->
  In f (blocks_frames bs ++ trailing) ->
  exists b, classify frames_dir blank_threshold f = Some b.
Proof.
  intros Hok Htr Hin. apply in_app_or in Hin as [Hin|Hin].
  - unfold blocks_frames in Hin. apply in_flat_map in Hin as (b & Hb & Hin).
    rewrite Forall_forall in Hok. destruct (Hok _ Hb) as [Hbl Hr].
    unfold block_frames in Hin. apply in_app_or in Hin as [Hin|Hin].
    + rewrite Forall_forall in Hbl. exists true. exact (Hbl _ Hin).
    + rewrite Forall_forall in Hr. exists false. exact (Hr _ Hin).
  - rewrite Forall_forall in Htr. exists true. exact (Htr _ Hin).
Qed.

Lemma calculate_frame_difference_raises (a b : ndarray) (e : exn) :
  calculate_frame_difference a b = Raise e ->
  np_subtract (astype_float32 a) (astype_float32 b) = Raise e.
Proof.
  unfold calculate_frame_difference.
  destruct (np_subtract (astype_float32 a) (astype_float32 b)); cbn;
    intros H; [discriminate H | now injection H as ->].
Qed.

Lemma loop_body_keeps_safe (names : list string) (st st' : LoopState)
    (f : frame_file) :
  In (snd f) names ->
  loop_body frames_dir vid diff_threshold blank_threshold st f = Ok st' ->
  state_safe blank_threshold st' /\ prev_loaded frames_dir names st'.
Proof.
  intros Hname H.
  destruct (loop_body_openings _ _ _ _ _ _ _ H) as (img & Hload & Hprev & _).
  split.
  - unfold state_safe. rewrite Hprev. intros Hcur.
    unfold loop_body in H. destruct f as [n name]. cbn [snd] in Hload.
    rewrite Hload in H. cbn [bind] in H.
    destruct (is_blank_frame img blank_threshold); [reflexivity|].
    match type of H with
    | bind ?m _ = _ => destruct m as [[|]|]; cbn [bind negb] in H
    end; try discriminate.
    + destruct (current_segment st); [|discriminate].
      injection H as <-. discriminate Hcur.
    + injection H as <-. discriminate Hcur.
  - intros p Hp. rewrite Hprev in Hp. injection Hp as <-.
    exists (snd f). split; [exact Hname | exact Hload].
Qed.

Lemma loop_body_raises (names : list string) (st : LoopState)
    (f : frame_file) (e : exn) :
  In (snd f) names ->
  state_safe blank_threshold st -> prev_loaded frames_dir names st ->
  loop_body frames_dir vid diff_threshold blank_threshold st f = Raise e ->
  failure_cause frames_dir names e.
Proof.
  intros Hname Hsafe Hloaded H. unfold loop_body in H.
  destruct f as [n name]. cbn [snd] in Hname.
  destruct (load_image_as_array frames_dir name) as [img|e0] eqn:Hload;
    cbn [bind] in H.
  - destruct (is_blank_frame img blank_threshold); [discriminate|].
    destruct (prev_img st) as [p|] eqn:Hp.
    + destruct (is_blank_frame p blank_threshold) eqn:Hbp; cbn [negb bind] in H;
        [discriminate|].
      destruct (calculate_frame_difference p img) as [d|e1] eqn:Hdiff;
        cbn [bind] in H.
      * destruct (float_lt d diff_threshold); cbn [negb] in H; [|discriminate].
        destruct (current_segment st) eqn:Hcur; [discriminate|].
        specialize (Hsafe Hcur). rewrite Hp in Hsafe. congruence.
      * injection H as <-. right. exists p, img.
        split; [exact (Hloaded _ Hp)|].
        split; [exists name; auto|].
        now apply calculate_frame_difference_raises.
    + cbn [bind negb] in H. discriminate.
  - injection H as <-. left. exists name. auto.
Qed.

Lemma segment_loop_raises (names : list string) (fs : list frame_file) :
  forall (st : LoopState) (e : exn),
  Forall (fun f => In (snd f) names) fs ->
  state_safe blank_threshold st -> prev_loaded frames_dir names st ->
  segment_loop frames_dir vid diff_threshold blank_threshold st fs = Raise e ->
  failure_cause frames_dir names e.
Proof.
  induction fs as [|f fs IH]; intros st e Hall Hsafe Hloaded H;
    cbn [segment_loop] in H; [discriminate|].
  inversion Hall as [|? ? Hf Hrest]; subst.
  destruct (loop_body frames_dir vid diff_threshold blank_threshold st f)
    as [st1|e1] eqn:Hb; cbn [bind] in H.
  - destruct (loop_body_keeps_safe names _ _ _ Hf Hb) as [Hs1 Hl1]. eauto.
  - injection H as <-. eapply loop_body_raises; eauto.
Qed.

Lemma raw_segments_raises (frame_files : list frame_file) (e : exn) :
  find_frames frames_dir vid = Ok frame_files ->
  raw_segments frames_dir vid diff_threshold blank_threshold = Raise e ->
  failure_cause frames_dir (map snd frame_files) e.
Proof.
  intros Hff H. unfold raw_segments in H. rewrite Hff in H. cbn [bind] in H.
  unfold segment_pass in H.
  destruct (segment_loop frames_dir vid diff_threshold blank_threshold
              initial_state frame_files) as [st|e1] eqn:Hloop;
    cbn [bind] in H; [discriminate|].
  injection H as <-.
  apply (segment_loop_raises (map snd frame_files) frame_files initial_state e1);
    auto.
  - apply Forall_forall. intros f Hf. now apply in_map.
  - intros _. exact I.
  - intros p Hp. discriminate Hp.
Qed.

End Failing.

(** X6. A frame that cannot be read aborts the run: if the image of any
    frame of the list raises when opened, [segment_frames] raises and
    returns no segment list, not even for the frames before it. *)
Theorem unreadable_frame_aborts (NP : NumPy) (frames_dir : Directory)
    (vid : string) (diff_threshold blank_threshold : float)
    (min_segment_duration : Z) (frame_files : list frame_file)
    (f : frame_file) (e : exn) :
  find_frames frames_dir vid = Ok frame_files ->
  In f frame_files ->
  load_image_as_array frames_dir (snd f) = Raise e ->
  exists e',
    raw_segments frames_dir vid diff_threshold blank_threshold = Raise e' /\
    segment_frames frames_dir vid diff_threshold blank_threshold
      min_segment_duration = Raise e'.
Proof.
  intros Hff Hin Hload. rewrite segment_frames_filter.
  destruct (raw_segments frames_dir vid diff_threshold blank_threshold)
    as [raw|e'] eqn:Hraw; [exfalso | exists e'; split; reflexivity].
  destruct (raw_segments_blocks _ _ _ _ _ Hraw)
    as (fs & bs & tr & Hfs & E & _ & Hok & Htr).
  rewrite Hff in Hfs. injection Hfs as <-. rewrite E in Hin.
  destruct (block_frame_classified _ _ _ _ _ Hok Htr Hin) as [b Hb].
  unfold classify in Hb. rewrite Hload in Hb. discriminate.
Qed.

Lemma unreadable_frame_aborts_witness :
  exists e',
    @raw_segments TwoPixel.numpy broken_directory "v" Frames.d15 Frames.b30
      = Raise e' /\
    @segment_frames TwoPixel.numpy broken_directory "v" Frames.d15 Frames.b30 1
      = Raise e'.
Proof.
  apply (unreadable_frame_aborts TwoPixel.numpy broken_directory "v"
           Frames.d15 Frames.b30 1
           [(1, "v_0001.jpg"); (2, "v_0002.jpg")] (2, "v_0002.jpg") not_an_image).
  - reflexivity.
  - right. left. reflexivity.
  - reflexivity.
Defined.

(** X7. When frames were found, the run raises only what reading a frame
    or subtracting the arrays of two frames raises: the exception comes
    from [Image.open] on a frame of the list or from the subtraction in
    [calculate_frame_difference].  No other statement of the loop
    raises; the item assignment to [current_segment] is never reached
    with [None]. *)
Theorem failures_come_from_frames (NP : NumPy) (frames_dir : Directory)
    (vid : string) (diff_threshold blank_threshold : float)
    (min_segment_duration : Z) (frame_files : list frame_file) (e : exn) :
  find_frames frames_dir vid = Ok frame_files ->
  segment_frames frames_dir vid diff_threshold blank_threshold
    min_segment_duration = Raise e ->
  failure_cause frames_dir (map snd frame_files) e.
Proof.
  intros Hff H. rewrite segment_frames_filter in H.
  destruct (raw_segments frames_dir vid diff_threshold blank_threshold)
    as [raw|e'] eqn:Hraw; cbn in H; [discriminate|].
  injection H as <-. eapply raw_segments_raises; eauto.
Qed.

Lemma failures_come_from_frames_witness :
  @failure_cause TwoPixel.numpy broken_directory
    (map snd [(1, "v_0001.jpg"); (2, "v_0002.jpg")]) not_an_image.
Proof.
  apply (failures_come_from_frames TwoPixel.numpy broken_directory "v"
           Frames.d15 Frames.b30 1); reflexivity.
Defined.

(** X8. [segment_frames] returns a segment list whenever at least one
    name matches, every frame of the list can be read and the
    subtraction of the arrays of two frames does not raise (as when all
    frames have one shape). *)
Theorem segment_frames_returns (NP : NumPy) (frames_dir : Directory)
    (vid : string) (diff_threshold blank_threshold : float)
    (min_segment_duration : Z) (frame_files : list frame_file) :
  find_frames frames_dir vid = Ok frame_files ->
  (forall f, In f frame_files ->
     exists img, load_image_as_array frames_dir (snd f) = Ok img) ->
  (forall a b,
     loaded_from frames_dir (map snd frame_files) a ->
     loaded_from frames_dir (map snd frame_files) b ->
     exists d, np_subtract (astype_float32 a) (astype_float32 b) = Ok d) ->
  exists out,
    segment_frames frames_dir vid diff_threshold blank_threshold
      min_segment_duration = Ok out.
Proof.
  intros Hff Hload Hsub.
  destruct (segment_frames frames_dir vid diff_threshold blank_threshold
              min_segment_duration) as [out|e] eqn:H; [eauto|exfalso].
  rewrite segment_frames_filter in H.
  destruct (raw_segments frames_dir vid diff_threshold blank_threshold)
    as [raw|e'] eqn:Hraw; cbn in H; [discriminate|].
  injection H as <-.
  destruct (raw_segments_raises _ _ _ _ _ _ Hff Hraw)
    as [(name & Hin & Hopen) | (a & b & Ha & Hb & Hs)].
  - apply in_map_iff in Hin as (f & <- & Hf).
    destruct (Hload f Hf) as [img Himg].
    unfold load_image_as_array in Himg. congruence.
  - destruct (Hsub a b Ha Hb) as [d Hd]. congruence.
Qed.

Lemma segment_frames_returns_witness :
  exists out, TwoPixel.run scenario_frames "v" Frames.d15 Frames.b30 1 = Ok out.
Proof.
  apply (segment_frames_returns TwoPixel.numpy (TwoPixel.directory scenario_frames)
           "v" Frames.d15 Frames.b30 1
           [(1, "v_0001.jpg"); (2, "v_0002.jpg"); (3, "v_0003.jpg");
            (4, "v_0004.jpg"); (5, "v_0005.jpg"); (6, "v_0006.jpg");
            (7, "v_0007.jpg")]).
  - reflexivity.
  - intros f Hf. cbn in Hf.
    repeat (destruct Hf as [<-|Hf]; [eexists; reflexivity|]). destruct Hf.
  - intros a b _ _. eexists. reflexivity.
Defined.

(** ** The fields of a segment *)

Lemma block_run_frames_In (bs : list block) (trailing : list frame_file)
    (b : block) (f : frame_file) :
  In b bs -> In f (run_frames (snd b)) -> In f (blocks_frames bs ++ trailing).
Proof.
  intros Hb Hf. apply in_or_app. left. apply (block_frames_incl bs b f Hb).
  unfold block_frames. apply in_or_app. now right.
Qed.

(** X9. The fields of a raw segment agree with each other and with the
    directory: [video_id] is the identifier asked for, the times are the
    frame numbers minus one, and [representative_frame] is the name of a
    file of the directory that is a frame of the list with number
    [start_frame] and is classified as content; [end_frame] too is the
    number of a content frame of the list. *)
Theorem segment_fields_consistent (NP : NumPy) (frames_dir : Directory)
    (vid : string) (diff_threshold blank_threshold : float)
    (frame_files : list frame_file) (raw : list Segment) :
  find_frames frames_dir vid = Ok frame_files ->
  raw_segments frames_dir vid diff_threshold blank_threshold = Ok raw ->
  Forall (fun seg =>
            video_id seg = vid /\
            start_time seg = start_frame seg - 1 /\
            end_time seg = end_frame seg - 1 /\
            In (start_frame seg, representative_frame seg) frame_files /\
            In (representative_frame seg) (os_listdir frames_dir) /\
            is_content frames_dir blank_threshold
              (start_frame seg, representative_frame seg) /\
            exists name,
              In (end_frame seg, name) frame_files /\
              is_content frames_dir blank_threshold (end_frame seg, name))
         raw.
Proof.
  intros Hff Hraw.
  destruct (raw_segments_blocks _ _ _ _ _ Hraw)
    as (fs & bs & tr & Hfs & E & -> & Hok & Htr).
  rewrite Hff in Hfs. injection Hfs as <-.
  apply Forall_forall. intros seg Hin.
  apply segments_of_runs_In in Hin as (r & id & Hr & ->).
  apply in_map_iff in Hr as (b & <- & Hb).
  rewrite Forall_forall in Hok. destruct (Hok _ Hb) as [_ Hcontent].
  rewrite Forall_forall in Hcontent.
  cbn [video_id start_time end_time start_frame end_frame representative_frame
       segment_of_run].
  assert (Hfirst : In (fst (snd b)) (run_frames (snd b))) by now left.
  pose proof (run_last_In (snd b)) as Hlast.
  assert (Hin1 : In (fst (snd b)) frame_files)
    by (rewrite E; eapply block_run_frames_In; eauto).
  assert (Hin2 : In (run_last (snd b)) frame_files)
    by (rewrite E; eapply block_run_frames_In; eauto).
  rewrite <- surjective_pairing.
  repeat split; auto.
  - apply (find_frames_In frames_dir vid _ _ Hff) in Hin1. apply Hin1.
  - exists (snd (run_last (snd b))). rewrite <- surjective_pairing. auto.
Qed.

Lemma segment_fields_consistent_witness :
  Forall (fun seg =>
            video_id seg = "v" /\
            start_time seg = start_frame seg - 1 /\
            end_time seg = end_frame seg - 1 /\
            In (start_frame seg, representative_frame seg)
               [(1, "v_0001.jpg"); (3, "v_0003.jpg")] /\
            In (representative_frame seg)
               (os_listdir (TwoPixel.directory gap_frames)) /\
            is_content (TwoPixel.directory gap_frames) Frames.b30
              (start_frame seg, representative_frame seg) /\
            exists name,
              In (end_frame seg, name) [(1, "v_0001.jpg"); (3, "v_0003.jpg")] /\
              is_content (TwoPixel.directory gap_frames) Frames.b30
                (end_frame seg, name))
    [ {| video_id := "v"; segment_id := 1;
         start_time := 0; end_time := 2; start_frame := 1; end_frame := 3;
         frame_count := 2; representative_frame := "v_0001.jpg" |} ].
Proof.
  apply (segment_fields_consistent TwoPixel.numpy (TwoPixel.directory gap_frames)
           "v" Frames.d15 Frames.b30); reflexivity.
Defined.

Lemma raw_segment_endpoints (NP : NumPy) (frames_dir : Directory)
    (vid : string) (diff_threshold blank_threshold : float)
    (frame_files : list frame_file) (raw : list Segment) (seg : Segment) :
  find_frames frames_dir vid = Ok frame_files ->
  raw_segments frames_dir vid diff_threshold blank_threshold = Ok raw ->
  In seg raw ->
  start_time seg = start_frame seg - 1 /\
  end_time seg = end_frame seg - 1 /\
  (exists name, In (start_frame seg, name) frame_files) /\
  (exists name, In (end_frame seg, name) frame_files).
Proof.
  intros Hff Hraw Hin.
  destruct (raw_segments_blocks _ _ _ _ _ Hraw)
    as (fs & bs & tr & Hfs & E & -> & _).
  rewrite Hff in Hfs. injection Hfs as <-.
  apply segments_of_runs_In in Hin as (r & id & Hr & ->).
  apply in_map_iff in Hr as (b & <- & Hb).
  cbn [start_time end_time start_frame end_frame segment_of_run].
  assert (Hfirst : In (fst (snd b)) (run_frames (snd b))) by now left.
  pose proof (run_last_In (snd b)) as Hlast.
  repeat split.
  - exists (snd (fst (snd b))). rewrite <- surjective_pairing, E.
    eapply block_run_frames_In; eauto.
  - exists (snd (run_last (snd b))). rewrite <- surjective_pairing, E.
    eapply block_run_frames_In; eauto.
Qed.

(** X10. Times are bounded by the four digits of the frame numbers: every
    raw segment has [-1 <= start_time <= end_time <= 9998], so its
    duration is between 1 and 10000 seconds.  The bound -1 is reached: a
    file numbered 0000 is a frame with time -1. *)
Theorem segment_times_bounded (NP : NumPy) (frames_dir : Directory)
    (vid : string) (diff_threshold blank_threshold : float)
    (raw : list Segment) :
  raw_segments frames_dir vid diff_threshold blank_threshold = Ok raw ->
  Forall (fun seg =>
            -1 <= start_time seg <= end_time seg /\ end_time seg <= 9998 /\
            1 <= duration seg <= 10000) raw.
Proof.
  intros Hraw.
  destruct (raw_segments_ordered _ _ _ _ _ Hraw) as [Hle _].
  destruct (raw_segments_blocks _ _ _ _ _ Hraw)
    as (fs & bs & tr & Hff & E & Eraw & Hok & Htr).
  rewrite Forall_forall in *. intros seg Hin.
  specialize (Hle _ Hin).
  destruct (raw_segment_endpoints NP frames_dir vid diff_threshold
              blank_threshold fs raw seg Hff Hraw Hin)
    as (Hs & He & [name1 Hin1] & [name Hin2]).
  apply (find_frames_In frames_dir vid _ _ Hff) in Hin1, Hin2.
  destruct Hin1 as [_ (d1 & t1 & Hl1 & Hd1 & _ & _ & Hn1)].
  destruct Hin2 as [_ (d2 & t2 & Hl2 & Hd2 & _ & _ & Hn2)].
  cbn [fst] in Hn1, Hn2.
  pose proof (py_int_four_digits d1 Hl1 Hd1).
  pose proof (py_int_four_digits d2 Hl2 Hd2).
  unfold duration. lia.
Qed.

Lemma segment_times_bounded_witness :
  Forall (fun seg =>
            -1 <= start_time seg <= end_time seg /\ end_time seg <= 9998 /\
            1 <= duration seg <= 10000)
    [ {| video_id := "v"; segment_id := 1;
         start_time := -1; end_time := 0; start_frame := 0; end_frame := 1;
         frame_count := 2; representative_frame := "v_0000.jpg" |} ].
Proof.
  apply (segment_times_bounded TwoPixel.numpy (TwoPixel.directory frame_zero_frames)
           "v" Frames.d15 Frames.b30).
  reflexivity.
Defined.

(** X11. Filtering by duration does not renumber: each returned segment
    keeps the id it got in the pass, which is its place in the raw list,
    so the ids of the returned list can have gaps. *)
Theorem returned_ids_are_raw_positions (NP : NumPy) (frames_dir : Directory)
    (vid : string) (diff_threshold blank_threshold : float)
    (min_segment_duration : Z) (raw out : list Segment) :
  raw_segments frames_dir vid diff_threshold blank_threshold = Ok raw ->
  segment_frames frames_dir vid diff_threshold blank_threshold
    min_segment_duration = Ok out ->
  Forall (fun seg =>
            1 <= segment_id seg <= Z.of_nat (List.length raw) /\
            nth_error raw (Z.to_nat (segment_id seg - 1)) = Some seg) out.
Proof.
  intros Hraw Hout. rewrite segment_frames_filter, Hraw in Hout.
  injection Hout as <-.
  destruct (raw_segments_blocks _ _ _ _ _ Hraw) as (fs & bs & tr & _ & _ & E & _).
  apply Forall_forall. intros seg Hin. apply filter_In in Hin as [Hin _].
  apply In_nth_error in Hin as [i Hi].
  assert (Hid : segment_id seg = Z.of_nat i + 1).
  { rewrite E in Hi. now rewrite (segments_of_runs_nth _ _ _ _ _ Hi). }
  assert ((i < List.length raw)%nat)
    by (apply nth_error_Some; congruence).
  rewrite Hid. split; [lia|].
  replace (Z.to_nat (Z.of_nat i + 1 - 1)) with i by lia. exact Hi.
Qed.

Lemma returned_ids_are_raw_positions_witness :
  Forall (fun seg =>
            1 <= segment_id seg
              <= Z.of_nat (List.length [before_spike; spike_segment; after_spike]) /\
            nth_error [before_spike; spike_segment; after_spike]
              (Z.to_nat (segment_id seg - 1)) = Some seg)
    [before_spike; after_spike].
Proof.
  apply (returned_ids_are_raw_positions TwoPixel.numpy
           (TwoPixel.directory spike_frames) "v" Frames.d15 Frames.b30 2);
    reflexivity.
Defined.

(** ** The order of the directory listing *)

Lemma ascii_compare_N (a b : ascii) :
  Ascii.compare a b = N.compare (N_of_ascii a) (N_of_ascii b).
Proof. reflexivity. Qed.

Lemma string_compare_trans (a : string) :
  forall b c, String.compare a b <> Gt -> String.compare b c <> Gt ->
              String.compare a c <> Gt.
Proof.
  induction a as [|x a IH]; intros [|y b] [|z c]; cbn [String.compare];
    try congruence.
  rewrite !ascii_compare_N.
  destruct (N.compare_spec (N_of_ascii x) (N_of_ascii y)) as [Exy|Lxy|Gxy];
    destruct (N.compare_spec (N_of_ascii y) (N_of_ascii z)) as [Eyz|Lyz|Gyz];
    destruct (N.compare_spec (N_of_ascii x) (N_of_ascii z)) as [Exz|Lxz|Gxz];
    try congruence; try lia.
  apply IH.
Qed.

Lemma string_leb_trans :
  Transitive (fun x y : string => is_true (StringOrder.leb x y)).
Proof.
  intros a b c. unfold is_true, StringOrder.leb, String.leb.
  pose proof (string_compare_trans a b c) as H.
  destruct (String.compare a b), (String.compare b c), (String.compare a c);
    intros; try reflexivity; try discriminate; exfalso; apply H; congruence.
Qed.

Lemma sorted_names_unique (l1 : list string) :
  forall l2,
  StronglySorted (fun x y => is_true (StringOrder.leb x y)) l1 ->
  StronglySorted (fun x y => is_true (StringOrder.leb x y)) l2 ->
  Permutation l1 l2 -> l1 = l2.
Proof.
  induction l1 as [|a l1 IH]; intros l2 H1 H2 HP.
  - now apply Permutation_nil in HP.
  - destruct l2 as [|b l2];
      [apply Permutation_sym, Permutation_nil in HP; discriminate|].
    apply StronglySorted_inv in H1 as [H1 Ha].
    apply StronglySorted_inv in H2 as [H2 Hb].
    rewrite Forall_forall in Ha, Hb.
    assert (a = b) as <-.
    { assert (In a (b :: l2)) as [->|Hin]
        by (eapply Permutation_in; [exact HP | now left]); [reflexivity|].
      assert (In b (a :: l1)) as [->|Hin']
        by (eapply Permutation_in; [apply Permutation_sym; exact HP | now left]);
        [reflexivity|].
      apply String.leb_antisym; [apply Ha, Hin' | apply Hb, Hin]. }
    f_equal. apply IH; auto. now apply Permutation_cons_inv in HP.
Qed.

Lemma sort_names_permutation (l1 l2 : list string) :
  Permutation l1 l2 -> StringSort.sort l1 = StringSort.sort l2.
Proof.
  intros HP. apply sorted_names_unique.
  - apply StringSort.StronglySorted_sort, string_leb_trans.
  - apply StringSort.StronglySorted_sort, string_leb_trans.
  - eapply Permutation_trans;
      [apply Permutation_sym, StringSort.Permuted_sort|].
    eapply Permutation_trans; [exact HP | apply StringSort.Permuted_sort].
Qed.

Section SameImages.
Context `{NP : NumPy}.
Variables dir1 dir2 : Directory.
Variable vid : string.
Variables diff_threshold blank_threshold : float.
Hypothesis same_images :
  forall name, image_open dir1 name = image_open dir2 name.

Lemma loop_body_same_images (st : LoopState) (f : frame_file) :
  loop_body dir1 vid diff_threshold blank_threshold st f =
  loop_body dir2 vid diff_threshold blank_threshold st f.
Proof.
  destruct f as [n name]. unfold loop_body, load_image_as_array.
  now rewrite same_images.
Qed.

Lemma segment_loop_same_images (fs : list frame_file) :
  forall st,
  segment_loop dir1 vid diff_threshold blank_threshold st fs =
  segment_loop dir2 vid diff_threshold blank_threshold st fs.
Proof.
  induction fs as [|f fs IH]; intros st; cbn [segment_loop]; [reflexivity|].
  rewrite loop_body_same_images.
  destruct (loop_body dir2 vid diff_threshold blank_threshold st f);
    cbn; auto.
Qed.

End SameImages.

(** X12. The order in which the directory is listed does not matter: two
    directories that hold the same names, listed in any order, and open
    every name to the same image give the same result, segments and
    errors alike. *)
Theorem listing_order_irrelevant (NP : NumPy) (dir1 dir2 : Directory)
    (vid : string) (diff_threshold blank_threshold : float)
    (min_segment_duration : Z) :
  Permutation (os_listdir dir1) (os_listdir dir2) ->
  (forall name, image_open dir1 name = image_open dir2 name) ->
  segment_frames dir1 vid diff_threshold blank_threshold min_segment_duration =
  segment_frames dir2 vid diff_threshold blank_threshold min_segment_duration.
Proof.
  intros HP Himg.
  unfold segment_frames, raw_segments, find_frames.
  rewrite (sort_names_permutation _ _ HP).
  destruct (collect_frames (frame_pattern vid)
              (StringSort.sort (os_listdir dir2))) as [|x l]; [reflexivity|].
  cbn. unfold segment_pass.
  now rewrite (segment_loop_same_images dir1 dir2 vid diff_threshold
                 blank_threshold Himg).
Qed.

Lemma listing_order_irrelevant_witness :
  segment_frames (TwoPixel.directory scenario_frames) "v" Frames.d15 Frames.b30 1 =
  segment_frames scenario_backwards "v" Frames.d15 Frames.b30 1.
Proof.
  apply (listing_order_irrelevant TwoPixel.numpy
           (TwoPixel.directory scenario_frames) scenario_backwards).
  - apply Permutation_rev.
  - reflexivity.
Defined.

(** * Properties of the summary *)

(** ** Decimal digits *)

Lemma decimal_digits_fuel (fuel : nat) :
  forall n fuel', 0 <= n < 2 ^ Z.of_nat (S fuel) -> (fuel <= fuel')%nat ->
  decimal_digits (S fuel) n = decimal_digits (S fuel') n.
Proof.
  induction fuel as [|fuel IH]; intros n fuel' Hn Hf.
  - change (2 ^ Z.of_nat 1) with 2 in Hn. cbn [decimal_digits].
    now replace (n <? 10) with true by (symmetry; apply Z.ltb_lt; lia).
  - destruct fuel' as [|fuel']; [lia|].
    cbn [decimal_digits]. destruct (n <? 10) eqn:E; [reflexivity|].
    apply Z.ltb_ge in E. f_equal.
    apply (IH (n / 10) fuel'); [|lia].
    rewrite (Nat2Z.inj_succ (S fuel)), Z.pow_succ_r in Hn by lia.
    split; [apply Z.div_pos; lia|].
    apply Z.div_lt_upper_bound; lia.
Qed.

Lemma decimal_fuel (n : Z) (fuel : nat) :
  0 <= n -> (Z.to_nat (Z.log2 n) <= fuel)%nat ->
  decimal n = decimal_digits (S fuel) n.
Proof.
  intros Hn Hf. unfold decimal. apply decimal_digits_fuel; [|exact Hf].
  split; [exact Hn|].
  rewrite Nat2Z.inj_succ, Z2Nat.id by apply Z.log2_nonneg.
  destruct (Z.eq_dec n 0) as [->|Hz]; [reflexivity|].
  now pose proof (Z.log2_spec n ltac:(lia)) as [_ H].
Qed.

Lemma decimal_small (n : Z) :
  0 <= n < 10 -> decimal n = String (digit_char n) "".
Proof.
  intros Hn. unfold decimal. cbn [decimal_digits].
  replace (n <? 10) with true by (symmetry; apply Z.ltb_lt; lia).
  rewrite Z.mod_small by lia. reflexivity.
Qed.

Lemma decimal_step (n : Z) :
  10 <= n ->
  decimal n = (decimal (n / 10) ++ String (digit_char (n mod 10)) "")%string.
Proof.
  intros Hn. unfold decimal at 1. cbn [decimal_digits].
  replace (n <? 10) with false by (symmetry; apply Z.ltb_ge; lia).
  f_equal. symmetry. destruct (Z.to_nat (Z.log2 n)) as [|k] eqn:E.
  - exfalso. assert (Z.log2 n = 0) as H0 by (pose proof (Z.log2_nonneg n); lia).
    pose proof (Z.log2_spec n ltac:(lia)) as [_ H]. rewrite H0 in H.
    change (2 ^ Z.succ 0) with 2 in H. lia.
  - apply decimal_fuel; [apply Z.div_pos; lia|].
    assert (Z.log2 (n / 10) <= Z.log2 n) by (apply Z.log2_le_mono;
      apply Z.div_le_upper_bound; lia).
    assert (Z.log2 (n / 10) < Z.log2 n \/ Z.log2 (n / 10) = Z.log2 n) as [H1|H1]
      by lia; [lia|].
    exfalso.
    assert (0 < n / 10) by (apply Z.div_str_pos; lia).
    pose proof (Z.log2_spec n ltac:(lia)) as [_ Hb].
    pose proof (Z.log2_spec (n / 10) ltac:(lia)) as [Hc _].
    rewrite H1 in Hc. rewrite Z.pow_succ_r in Hb by apply Z.log2_nonneg.
    pose proof (Z.div_mod n 10 ltac:(lia)).
    pose proof (Z.mod_pos_bound n 10 ltac:(lia)). lia.
Qed.

Lemma digit_char_spec (d : Z) :
  0 <= d <= 9 ->
  is_digit (digit_char d) = true /\ digit_value (digit_char d) = d.
Proof.
  intros H.
  assert (d = 0 \/ d = 1 \/ d = 2 \/ d = 3 \/ d = 4 \/ d = 5 \/ d = 6 \/ d = 7
          \/ d = 8 \/ d = 9) as Hd by lia.
  repeat (destruct Hd as [->|Hd]; [split; reflexivity|]).
  subst. split; reflexivity.
Qed.

Lemma all_digits_app (a b : string) :
  all_digits (a ++ b)%string = all_digits a && all_digits b.
Proof.
  induction a as [|c a IH]; [reflexivity|].
  cbn [String.append all_digits]. now rewrite IH, andb_assoc.
Qed.

Lemma int_digits_app (a b : string) :
  forall acc, int_digits acc (a ++ b)%string = int_digits (int_digits acc a) b.
Proof.
  induction a as [|c a IH]; intros acc; [reflexivity|].
  cbn [String.append int_digits]. apply IH.
Qed.

(** [int(str(n)) == n] for [n >= 0], and [str(n)] is a non-empty string of
    digits. *)
Lemma decimal_spec (n : Z) :
  0 <= n ->
  all_digits (decimal n) = true /\ py_int (decimal n) = n /\
  (1 <= String.length (decimal n))%nat.
Proof.
  intros Hn. generalize Hn. revert n Hn. apply (Z_lt_induction (fun n =>
    0 <= n ->
    all_digits (decimal n) = true /\ py_int (decimal n) = n /\
    (1 <= String.length (decimal n))%nat)).
  intros n IH Hn.
  pose proof (Z.mod_pos_bound n 10 ltac:(lia)) as Hm.
  destruct (digit_char_spec (n mod 10) ltac:(lia)) as [H1 H2].
  destruct (Z_lt_le_dec n 10) as [Hs|Hl].
  - rewrite decimal_small by lia. rewrite Z.mod_small in H1, H2 by lia.
    unfold py_int. cbn [all_digits int_digits String.length].
    rewrite H1, H2. repeat split; auto.
  - rewrite decimal_step by lia.
    assert (0 <= n / 10 < n) as Hq
      by (split; [apply Z.div_pos; lia | apply Z.div_lt; lia]).
    destruct (IH (n / 10) Hq (proj1 Hq)) as (I1 & I2 & I3).
    unfold py_int in *.
    rewrite all_digits_app, int_digits_app, string_length_append, I1, I2.
    cbn [all_digits int_digits String.length]. rewrite H1, H2.
    repeat split; [|lia].
    pose proof (Z.div_mod n 10 ltac:(lia)). lia.
Qed.

Lemma format_0d_nonneg (width : nat) (n : Z) :
  0 <= n ->
  format_0d width n
  = (zeros (width - String.length (decimal n)) ++ decimal n)%string.
Proof.
  intros Hn. unfold format_0d.
  replace (n <? 0) with false by (symmetry; apply Z.ltb_ge; lia).
  rewrite Z.abs_eq by lia. cbn [String.length String.append].
  now rewrite Nat.sub_0_r.
Qed.

Lemma format_0d_negative (width : nat) (n : Z) :
  n < 0 -> exists rest, format_0d width n = String "-" rest.
Proof.
  intros Hn. unfold format_0d.
  replace (n <? 0) with true by (symmetry; apply Z.ltb_lt; lia).
  cbn [String.append]. eauto.
Qed.

(** A number from 0 to 99 is formatted as its two digits. *)
Lemma format_0d_two_digits (n : Z) :
  0 <= n < 100 ->
  exists a b,
    format_0d 2 n = String a (String b "") /\
    is_digit a = true /\ is_digit b = true /\
    10 * digit_value a + digit_value b = n.
Proof.
  intros Hn. rewrite format_0d_nonneg by lia.
  pose proof (Z.mod_pos_bound n 10 ltac:(lia)) as Hm.
  destruct (digit_char_spec (n mod 10) ltac:(lia)) as [H1 H2].
  destruct (Z_lt_le_dec n 10) as [Hs|Hl].
  - rewrite decimal_small by lia. cbn [String.length Nat.sub zeros String.append].
    rewrite Z.mod_small in H1, H2 by lia.
    exists "0"%char, (digit_char n). repeat split; auto.
  - rewrite decimal_step by lia.
    assert (0 <= n / 10 < 10) as Hq
      by (split; [apply Z.div_pos; lia | apply Z.div_lt_upper_bound; lia]).
    rewrite (decimal_small (n / 10)) by lia.
    destruct (digit_char_spec (n / 10) ltac:(lia)) as [H3 H4].
    cbn [String.length Nat.sub zeros String.append].
    exists (digit_char (n / 10)), (digit_char (n mod 10)). repeat split; auto.
    rewrite H2, H4. pose proof (Z.div_mod n 10 ltac:(lia)). lia.
Qed.

(** A number from 100 on is formatted with at least three digits. *)
Lemma format_0d_three_digits (n : Z) :
  100 <= n ->
  exists a b c rest,
    format_0d 2 n = String a (String b (String c rest)) /\ is_digit c = true.
Proof.
  intros Hn. rewrite format_0d_nonneg by lia.
  destruct (decimal_spec n ltac:(lia)) as (Hall & _ & _).
  assert (3 <= String.length (decimal n))%nat as Hlen.
  { rewrite (decimal_step n), string_length_append by lia.
    assert (10 <= n / 10) by (apply Z.div_le_lower_bound; lia).
    rewrite (decimal_step (n / 10)), string_length_append by lia.
    assert (0 <= n / 10 / 10) by (apply Z.div_pos; lia).
    destruct (decimal_spec (n / 10 / 10) ltac:(lia)) as (_ & _ & H1).
    cbn [String.length]. lia. }
  destruct (decimal n) as [|a [|b [|c rest]]]; cbn [String.length] in Hlen;
    try lia.
  cbn [String.length Nat.sub zeros String.append].
  exists a, b, c, rest. split; [reflexivity|].
  cbn [all_digits] in Hall.
  apply andb_true_iff in Hall as [_ Hall].
  apply andb_true_iff in Hall as [_ Hall].
  now apply andb_true_iff in Hall as [Hall _].
Qed.

Lemma format_timestamp_millis (s : Z) : format_0d 3 ((s mod 1) * 1000) = "000".
Proof. now rewrite Z.mod_1_r. Qed.

Lemma timestamp_fields (s : Z) :
  0 <= s < 360000 ->
  0 <= s / 3600 < 100 /\ 0 <= (s mod 3600) / 60 < 60 /\ 0 <= s mod 60 < 60 /\
  3600 * (s / 3600) + 60 * ((s mod 3600) / 60) + s mod 60 = s.
Proof.
  intros Hs.
  pose proof (Z.div_mod s 3600 ltac:(lia)) as E1.
  pose proof (Z.mod_pos_bound s 3600 ltac:(lia)) as B1.
  pose proof (Z.div_mod (s mod 3600) 60 ltac:(lia)) as E2.
  pose proof (Z.mod_pos_bound (s mod 3600) 60 ltac:(lia)) as B2.
  pose proof (Z.mod_pos_bound s 60 ltac:(lia)) as B3.
  assert (s mod 60 = (s mod 3600) mod 60) as E3.
  { rewrite E1 at 1. replace (3600 * (s / 3600) + s mod 3600)
      with (s mod 3600 + (60 * (s / 3600)) * 60) by lia.
    apply Z.mod_add. lia. }
  repeat split; lia.
Qed.

(** X13. For a time of 0 to 359999 seconds [format_timestamp] gives
    HH:MM:SS,000 with three fields of two digits each, and reading the
    fields back with [int] gives the time: minutes and seconds are below
    60 and 3600 * HH + 60 * MM + SS is the time. *)
Theorem format_timestamp_round_trip (seconds : Z) :
  0 <= seconds < 360000 ->
  exists hh mm ss,
    format_timestamp seconds = (hh ++ ":" ++ mm ++ ":" ++ ss ++ ",000")%string /\
    String.length hh = 2%nat /\ String.length mm = 2%nat /\
    String.length ss = 2%nat /\
    all_digits hh = true /\ all_digits mm = true /\ all_digits ss = true /\
    py_int mm < 60 /\ py_int ss < 60 /\
    3600 * py_int hh + 60 * py_int mm + py_int ss = seconds.
Proof.
  intros Hs. destruct (timestamp_fields seconds Hs) as (Bh & Bm & Bs & E).
  destruct (format_0d_two_digits (seconds / 3600) Bh)
    as (h1 & h2 & Fh & Dh1 & Dh2 & Vh).
  destruct (format_0d_two_digits (seconds mod 3600 / 60) ltac:(lia))
    as (m1 & m2 & Fm & Dm1 & Dm2 & Vm).
  destruct (format_0d_two_digits (seconds mod 60) ltac:(lia))
    as (s1 & s2 & Fs & Ds1 & Ds2 & Vs).
  exists (String h1 (String h2 "")), (String m1 (String m2 "")),
         (String s1 (String s2 "")).
  unfold format_timestamp. cbn zeta.
  rewrite Fh, Fm, Fs, format_timestamp_millis.
  unfold py_int. cbn [int_digits all_digits String.length].
  rewrite Dh1, Dh2, Dm1, Dm2, Ds1, Ds2.
  repeat split; lia.
Qed.

Lemma format_timestamp_round_trip_witness :
  exists hh mm ss,
    format_timestamp 3725 = (hh ++ ":" ++ mm ++ ":" ++ ss ++ ",000")%string /\
    String.length hh = 2%nat /\ String.length mm = 2%nat /\
    String.length ss = 2%nat /\
    all_digits hh = true /\ all_digits mm = true /\ all_digits ss = true /\
    py_int mm < 60 /\ py_int ss < 60 /\
    3600 * py_int hh + 60 * py_int mm + py_int ss = 3725.
Proof. apply (format_timestamp_round_trip 3725). lia. Defined.

Lemma srt_shape_inv (t : string) :
  srt_shape t = true ->
  all_digits (take 2 t) = true /\ take 1 (drop 2 t) = ":".
Proof.
  unfold srt_shape. intros H.
  apply andb_true_iff in H as [H _]. apply andb_true_iff in H as [H _].
  apply andb_true_iff in H as [H _]. apply andb_true_iff in H as [H _].
  apply andb_true_iff in H as [H _]. apply andb_true_iff in H as [H Hc].
  apply andb_true_iff in H as [_ Hd].
  split; [exact Hd | now apply String.eqb_eq].
Qed.

(** X14. [format_timestamp] gives a string of the form HH:MM:SS,mmm
    exactly for the times from 0 to 359999 seconds.  A negative time, the
    start time -1 of a frame numbered 0000 for one, gives a string that
    starts with a minus sign; from 100 hours on the hours take three
    digits or more. *)
Theorem format_timestamp_shape (seconds : Z) :
  srt_shape (format_timestamp seconds) = true <-> 0 <= seconds < 360000.
Proof.
  split.
  - intros H. apply srt_shape_inv in H as [Hd Hc].
    unfold format_timestamp in Hd, Hc. cbn zeta in Hd, Hc.
    destruct (Z_lt_le_dec seconds 0) as [Hneg|Hpos].
    + exfalso.
      assert (seconds / 3600 < 0) as Hh by (apply Z.div_lt_upper_bound; lia).
      destruct (format_0d_negative 2 _ Hh) as [rest E]. rewrite E in Hd.
      cbn in Hd. discriminate Hd.
    + destruct (Z_lt_le_dec seconds 360000) as [Hlt|Hge]; [lia|]. exfalso.
      assert (100 <= seconds / 3600) as Hh by (apply Z.div_le_lower_bound; lia).
      destruct (format_0d_three_digits _ Hh) as (a & b & c & rest & E & Dc).
      rewrite E in Hc. cbn [String.append drop take] in Hc.
      injection Hc as ->. discriminate Dc.
  - intros Hs. destruct (timestamp_fields seconds Hs) as (Bh & Bm & Bs & _).
    destruct (format_0d_two_digits (seconds / 3600) Bh)
      as (h1 & h2 & Fh & Dh1 & Dh2 & _).
    destruct (format_0d_two_digits (seconds mod 3600 / 60) ltac:(lia))
      as (m1 & m2 & Fm & Dm1 & Dm2 & _).
    destruct (format_0d_two_digits (seconds mod 60) ltac:(lia))
      as (s1 & s2 & Fs & Ds1 & Ds2 & _).
    unfold format_timestamp. cbn zeta.
    rewrite Fh, Fm, Fs, format_timestamp_millis.
    unfold srt_shape.
    cbn [String.append String.length take drop all_digits Nat.eqb].
    rewrite Dh1, Dh2, Dm1, Dm2, Ds1, Ds2. reflexivity.
Qed.

(** ** The total duration *)

Lemma total_duration_cons (seg : Segment) (segs : list Segment) :
  total_duration (seg :: segs) = duration seg + total_duration segs.
Proof. unfold total_duration. cbn [map]. now rewrite py_sum_cons. Qed.

Lemma sorted_run_length (l : list frame_file) :
  forall a,
  StronglySorted (fun x y : frame_file => fst x < fst y) (a :: l) ->
  fst a + Z.of_nat (List.length l) <= fst (last l a).
Proof.
  induction l as [|b l IH]; intros a H.
  - cbn. lia.
  - apply StronglySorted_inv in H as [Hbl Ha].
    specialize (IH b Hbl). inversion Ha as [|? ? Hab _]; subst.
    assert (last (b :: l) a = last l b) as ->
      by (destruct l as [|c l]; [reflexivity|];
          change (last (b :: c :: l) a) with (last (c :: l) a);
          apply last_cons_default).
    cbn [List.length]. lia.
Qed.

Lemma runs_strict_count (vid : string) (bs : list block) (trailing : list frame_file) :
  forall k,
  StronglySorted (fun a b : frame_file => fst a < fst b) (blocks_frames bs ++ trailing) ->
  Forall (fun s => frame_count s <= duration s)
         (segments_of_runs vid k (map snd bs)).
Proof.
  induction bs as [|[bl r] bs IH]; intros k H; cbn [map snd segments_of_runs];
    constructor.
  - change (blocks_frames ((bl, r) :: bs))
      with (block_frames (bl, r) ++ blocks_frames bs) in H.
    unfold block_frames in H; cbn [fst snd] in H.
    rewrite <- !app_assoc in H.
    apply StronglySorted_app_inv in H as (_ & H & _).
    apply StronglySorted_app_inv in H as (H & _ & _).
    destruct r as [a l]. unfold run_frames in H. cbn [fst snd] in H.
    apply sorted_run_length in H.
    unfold duration.
    cbn [frame_count end_time start_time segment_of_run].
    unfold run_last, run_frames. cbn [fst snd List.length].
    unfold frame_file in *. lia.
  - apply IH.
    change (blocks_frames ((bl, r) :: bs))
      with (block_frames (bl, r) ++ blocks_frames bs) in H.
    rewrite <- app_assoc in H. now apply StronglySorted_app_inv in H as (_ & H & _).
Qed.

Lemma py_sum_le (A : Type) (g h : A -> Z) (l : list A) :
  Forall (fun x => g x <= h x) l -> py_sum (map g l) <= py_sum (map h l).
Proof.
  induction 1 as [|x l Hx _ IH]; cbn [map]; [lia|].
  rewrite !py_sum_cons. lia.
Qed.

Lemma durations_fit (segs : list Segment) (hi : Z) :
  forall lo, lo <= hi + 1 ->
  StronglySorted (fun a b => end_time a < start_time b) segs ->
  Forall (fun s => lo <= start_time s <= end_time s /\ end_time s <= hi) segs ->
  total_duration segs <= hi - lo + 1.
Proof.
  induction segs as [|a segs IH]; intros lo Hlo HS HF.
  - unfold total_duration, py_sum. cbn. lia.
  - apply StronglySorted_inv in HS as [HS Ha].
    inversion HF as [|? ? Hb HF']; subst.
    rewrite total_duration_cons. unfold duration.
    assert (total_duration segs <= hi - (end_time a + 1) + 1) as H.
    { apply IH; [lia | exact HS |].
      rewrite Forall_forall in *. intros s Hs.
      specialize (Ha _ Hs). specialize (HF' _ Hs). lia. }
    lia.
Qed.

(** X15. The total duration of the summary, for the raw segments of a
    video in which no frame number occurs twice: it is at least the number
    of content frames, a segment lasting at least as many seconds as it
    has frames, and at most the span of the frame numbers, the segments
    not overlapping in time. *)
Theorem total_duration_bounds (NP : NumPy) (frames_dir : Directory)
    (vid : string) (diff_threshold blank_threshold : float)
    (frame_files : list frame_file) (raw : list Segment) (lo hi : Z) :
  find_frames frames_dir vid = Ok frame_files ->
  NoDup (map fst frame_files) ->
  (forall f, In f frame_files -> lo <= fst f <= hi) ->
  raw_segments frames_dir vid diff_threshold blank_threshold = Ok raw ->
  Forall (fun seg => frame_count seg <= duration seg) raw /\
  Z.of_nat (count_content frames_dir blank_threshold frame_files)
    <= total_duration raw <= hi - lo + 1.
Proof.
  intros Hff Hnd Hbound Hraw.
  destruct (raw_segments_blocks _ _ _ _ _ Hraw)
    as (fs & bs & tr & Hfs & E & Eraw & Hok & Htr).
  rewrite Hff in Hfs. injection Hfs as <-.
  pose proof (StronglySorted_strict _ (find_frames_sorted frames_dir vid _ Hff) Hnd)
    as HS.
  assert (Hcount : Forall (fun seg => frame_count seg <= duration seg) raw).
  { rewrite Eraw. apply (runs_strict_count vid bs tr). now rewrite <- E. }
  split; [exact Hcount|]. split.
  - unfold count_content. rewrite E at 1.
    rewrite (blocks_content_frames frames_dir blank_threshold bs tr Hok Htr).
    rewrite <- (segments_of_runs_total_count vid (map snd bs) 0), <- Eraw.
    unfold total_duration. now apply py_sum_le.
  - replace (hi - lo + 1) with ((hi - 1) - (lo - 1) + 1) by lia.
    destruct (raw_segments_ordered _ _ _ _ _ Hraw) as [Hle _].
    apply durations_fit.
    + destruct frame_files as [|f l];
        [now apply (find_frames_nonempty frames_dir vid) in Hff|].
      specialize (Hbound f (or_introl eq_refl)). lia.
    + eapply raw_segments_disjoint; eauto.
    + rewrite Forall_forall in *. intros seg Hin. specialize (Hle _ Hin).
      destruct (raw_segment_endpoints NP frames_dir vid diff_threshold
                  blank_threshold frame_files raw seg Hff Hraw Hin)
        as (Hs & He & [n1 H1] & [n2 H2]).
      apply Hbound in H1, H2. cbn [fst] in H1, H2. lia.
Qed.

Lemma total_duration_bounds_witness :
  Forall (fun seg => frame_count seg <= duration seg)
    [ {| video_id := "v"; segment_id := 1;
         start_time := 0; end_time := 2; start_frame := 1; end_frame := 3;
         frame_count := 2; representative_frame := "v_0001.jpg" |} ] /\
  Z.of_nat (count_content (TwoPixel.directory gap_frames) Frames.b30
              [(1, "v_0001.jpg"); (3, "v_0003.jpg")])
    <= total_duration
         [ {| video_id := "v"; segment_id := 1;
              start_time := 0; end_time := 2; start_frame := 1; end_frame := 3;
              frame_count := 2; representative_frame := "v_0001.jpg" |} ]
    <= 3 - 1 + 1.
Proof.
  apply (total_duration_bounds TwoPixel.numpy (TwoPixel.directory gap_frames)
           "v" Frames.d15 Frames.b30).
  - reflexivity.
  - repeat constructor; cbn; intuition lia.
  - intros f [<-|[<-|[]]]; cbn; lia.
  - reflexivity.
Defined.

Lemma total_duration_filter (p : Segment -> bool) (segs : list Segment) :
  Forall (fun s => 0 <= duration s) segs ->
  total_duration (filter p segs) <= total_duration segs.
Proof.
  induction 1 as [|s segs Hs _ IH]; [cbn; lia|].
  cbn [filter]. destruct (p s); rewrite ?total_duration_cons; lia.
Qed.

(** X16. With frame numbers that have no gap, the total duration of the
    summary is the number of content frames when the filter keeps every
    segment (a minimum duration of 1, the default, or less), and at most
    that number for any minimum. *)
Theorem total_duration_counts_content (NP : NumPy) (frames_dir : Directory)
    (vid : string) (diff_threshold blank_threshold : float)
    (min_segment_duration : Z)
    (frame_files : list frame_file) (out : list Segment) :
  find_frames frames_dir vid = Ok frame_files ->
  contiguous (map fst frame_files) ->
  segment_frames frames_dir vid diff_threshold blank_threshold
    min_segment_duration = Ok out ->
  total_duration out
    <= Z.of_nat (count_content frames_dir blank_threshold frame_files) /\
  (min_segment_duration <= 1 ->
   total_duration out
     = Z.of_nat (count_content frames_dir blank_threshold frame_files)).
Proof.
  intros Hff Hc Hout.
  assert (exists raw,
            raw_segments frames_dir vid diff_threshold blank_threshold = Ok raw /\
            out = filter (keep_segment min_segment_duration) raw)
    as (raw & Hraw & Eout).
  { rewrite segment_frames_filter in Hout.
    destruct (raw_segments frames_dir vid diff_threshold blank_threshold)
      as [raw|]; cbn in Hout; [|discriminate].
    injection Hout as <-. eauto. }
  destruct (raw_segments_blocks _ _ _ _ _ Hraw)
    as (fs & bs & tr & Hfs & E & Eraw & Hok & Htr).
  rewrite Hff in Hfs. injection Hfs as <-.
  destruct (raw_segments_ordered _ _ _ _ _ Hraw) as [Hle _].
  assert (Hraw_total :
            total_duration raw
            = Z.of_nat (count_content frames_dir blank_threshold frame_files)).
  { unfold count_content. rewrite E at 1.
    rewrite (blocks_content_frames frames_dir blank_threshold bs tr Hok Htr).
    rewrite <- (segments_of_runs_total_count vid (map snd bs) 0), <- Eraw.
    unfold total_duration. f_equal. apply map_ext_in. intros seg Hin.
    pose proof (runs_contiguous_count vid bs tr 0) as Hcount.
    rewrite <- E, <- Eraw in Hcount. specialize (Hcount Hc).
    pose proof (segments_of_runs_times vid (map snd bs) 0) as Ht.
    rewrite <- Eraw in Ht.
    rewrite Forall_forall in Hcount, Ht.
    specialize (Hcount _ Hin). destruct (Ht _ Hin). lia. }
  split.
  - rewrite Eout, <- Hraw_total. apply total_duration_filter.
    eapply Forall_impl; [|exact Hle]. cbn beta. unfold duration. intros; lia.
  - intros Hmd. rewrite (segment_frames_all_kept _ _ _ _ _ Hmd), Hraw in Hout.
    injection Hout as <-. exact Hraw_total.
Qed.

Lemma total_duration_counts_content_witness :
  total_duration scenario_segments
    <= Z.of_nat (count_content (TwoPixel.directory scenario_frames) Frames.b30
                   [(1, "v_0001.jpg"); (2, "v_0002.jpg"); (3, "v_0003.jpg");
                    (4, "v_0004.jpg"); (5, "v_0005.jpg"); (6, "v_0006.jpg");
                    (7, "v_0007.jpg")]) /\
  (1 <= 1 ->
   total_duration scenario_segments
     = Z.of_nat (count_content (TwoPixel.directory scenario_frames) Frames.b30
                   [(1, "v_0001.jpg"); (2, "v_0002.jpg"); (3, "v_0003.jpg");
                    (4, "v_0004.jpg"); (5, "v_0005.jpg"); (6, "v_0006.jpg");
                    (7, "v_0007.jpg")])).
Proof.
  apply (total_duration_counts_content TwoPixel.numpy
           (TwoPixel.directory scenario_frames) "v" Frames.d15 Frames.b30 1).
  - reflexivity.
  - cbn. repeat split.
  - reflexivity.
Defined.

(** * Further edge cases of [segment_frames] *)

(** X17. The minimum duration decides only which segments are returned:
    the result for a larger minimum is the result for a smaller one
    filtered again, and a run that raises raises the same exception for
    every minimum. *)
Theorem larger_minimum_filters_again (NP : NumPy) (frames_dir : Directory)
    (vid : string) (diff_threshold blank_threshold : float) (md1 md2 : Z) :
  md1 <= md2 ->
  segment_frames frames_dir vid diff_threshold blank_threshold md2
  = fmap (filter (keep_segment md2))
         (segment_frames frames_dir vid diff_threshold blank_threshold md1).
Proof.
  intros Hmd. rewrite !segment_frames_filter.
  destruct (raw_segments frames_dir vid diff_threshold blank_threshold)
    as [raw|e]; cbn; [|reflexivity].
  f_equal. induction raw as [|s raw IH]; [reflexivity|].
  cbn [filter]. destruct (keep_segment md1 s) eqn:E1; cbn [filter];
    destruct (keep_segment md2 s) eqn:E2; rewrite IH; try reflexivity.
  exfalso. unfold keep_segment in E1, E2. rewrite Z.geb_leb in E1, E2.
  apply Z.leb_le in E2. apply Z.leb_gt in E1. lia.
Qed.

Lemma larger_minimum_filters_again_witness :
  TwoPixel.run spike_frames "v" Frames.d15 Frames.b30 2
  = fmap (filter (keep_segment 2))
         (TwoPixel.run spike_frames "v" Frames.d15 Frames.b30 1).
Proof.
  apply (larger_minimum_filters_again TwoPixel.numpy
           (TwoPixel.directory spike_frames) "v" Frames.d15 Frames.b30 1 2).
  lia.
Defined.

Section NeverSame.
Context `{NP : NumPy}.
Variable frames_dir : Directory.
Variables diff_threshold blank_threshold : float.
Hypothesis never_below : forall x, float_lt x diff_threshold = false.



End NeverSame.

Lemma segments_of_runs_openings (vid : string) (rs : list run) :
  forall k, map segment_opening (segments_of_runs vid k rs) = map fst rs.
Proof.
  induction rs as [|r rs IH]; intros k; [reflexivity|].
  cbn [segments_of_runs map]. rewrite IH. f_equal.
  unfold segment_opening. cbn [start_frame representative_frame segment_of_run].
  now rewrite <- surjective_pairing.
Qed.





(** ** Files that are not frames of the video *)

Lemma collect_frames_names (vid : string) (names : list string) :
  map snd (collect_frames (frame_pattern vid) names)
  = filter (is_frame_name vid) names.
Proof.
  induction names as [|a names IH]; [reflexivity|].
  cbn [collect_frames filter]. unfold is_frame_name at 1.
  destruct (re_match (frame_pattern vid) a) as [[|g gs]|]; cbn [map snd];
    now rewrite IH.
Qed.

Lemma collect_frames_filter (vid : string) (names : list string) :
  collect_frames (frame_pattern vid) (filter (is_frame_name vid) names)
  = collect_frames (frame_pattern vid) names.
Proof.
  induction names as [|a names IH]; [reflexivity|].
  cbn [collect_frames filter]. unfold is_frame_name at 1.
  destruct (re_match (frame_pattern vid) a) as [[|g gs]|] eqn:E;
    cbn [collect_frames]; rewrite ?E; now rewrite IH.
Qed.

Lemma filter_permutation {A : Type} (p : A -> bool) (l1 l2 : list A) :
  Permutation l1 l2 -> Permutation (filter p l1) (filter p l2).
Proof.
  induction 1 as [|x l1 l2 _ IH|x y l|l1 l2 l3 _ IH1 _ IH2]; cbn [filter].
  - constructor.
  - destruct (p x); auto.
  - destruct (p x), (p y); auto. constructor.
  - eapply Permutation_trans; eauto.
Qed.

Lemma sorted_frame_names (vid : string) (l1 l2 : list string) :
  Permutation (filter (is_frame_name vid) l1) (filter (is_frame_name vid) l2) ->
  filter (is_frame_name vid) (StringSort.sort l1)
  = filter (is_frame_name vid) (StringSort.sort l2).
Proof.
  intros HP. apply sorted_names_unique.
  - apply StronglySorted_filter, StringSort.StronglySorted_sort, string_leb_trans.
  - apply StronglySorted_filter, StringSort.StronglySorted_sort, string_leb_trans.
  - eapply Permutation_trans;
      [apply filter_permutation, Permutation_sym, StringSort.Permuted_sort|].
    eapply Permutation_trans; [exact HP|].
    apply filter_permutation, StringSort.Permuted_sort.
Qed.

Lemma find_frames_names `{NP : NumPy} (frames_dir : Directory) (vid : string)
    (frame_files : list frame_file) (f : frame_file) :
  find_frames frames_dir vid = Ok frame_files ->
  In f frame_files ->
  In (snd f) (os_listdir frames_dir) /\ is_frame_name vid (snd f) = true.
Proof.
  unfold find_frames.
  destruct (collect_frames _ _) as [|x l] eqn:E; [discriminate|].
  intros [= <-] Hin. apply (proj1 (FrameSort_In _ _)) in Hin. rewrite <- E in Hin.
  destruct f as [n name]. apply collect_frames_In in Hin as [Hin (g & gs & Hm & _)].
  apply (proj1 (StringSort_In _ _)) in Hin. cbn [snd]. split; [exact Hin|].
  unfold is_frame_name. now rewrite Hm.
Qed.

Section SameFrames.
Context `{NP : NumPy}.
Variables dir1 dir2 : Directory.
Variable vid : string.
Variables diff_threshold blank_threshold : float.

Lemma segment_loop_same_frames (fs : list frame_file) :
  (forall f, In f fs -> image_open dir1 (snd f) = image_open dir2 (snd f)) ->
  forall st,
  segment_loop dir1 vid diff_threshold blank_threshold st fs =
  segment_loop dir2 vid diff_threshold blank_threshold st fs.
Proof.
  induction fs as [|f fs IH]; intros Himg st; cbn [segment_loop]; [reflexivity|].
  assert (loop_body dir1 vid diff_threshold blank_threshold st f
          = loop_body dir2 vid diff_threshold blank_threshold st f) as ->.
  { pose proof (Himg f (or_introl eq_refl)) as E. destruct f as [n name].
    unfold loop_body, load_image_as_array. cbn [snd] in E. now rewrite E. }
  destruct (loop_body dir2 vid diff_threshold blank_threshold st f);
    cbn [bind]; [|reflexivity].
  apply IH. intros g Hg. apply Himg. now right.
Qed.

End SameFrames.

(** X19. Only the files whose names match the pattern count: two
    directories that hold the same frame names of the video and open
    them to the same images give the same result, whatever other files
    they hold.  Files of other videos, or files that are no images, are
    not opened and cannot make the run fail. *)
Theorem other_files_ignored (NP : NumPy) (dir1 dir2 : Directory)
    (vid : string) (diff_threshold blank_threshold : float)
    (min_segment_duration : Z) :
  Permutation (filter (is_frame_name vid) (os_listdir dir1))
              (filter (is_frame_name vid) (os_listdir dir2)) ->
  (forall name, In name (os_listdir dir1) -> is_frame_name vid name = true ->
                image_open dir1 name = image_open dir2 name) ->
  segment_frames dir1 vid diff_threshold blank_threshold min_segment_duration =
  segment_frames dir2 vid diff_threshold blank_threshold min_segment_duration.
Proof.
  intros HP Himg.
  assert (Hfind : find_frames dir1 vid = find_frames dir2 vid).
  { unfold find_frames.
    rewrite <- (collect_frames_filter vid (StringSort.sort (os_listdir dir1))).
    rewrite <- (collect_frames_filter vid (StringSort.sort (os_listdir dir2))).
    now rewrite (sorted_frame_names vid _ _ HP). }
  unfold segment_frames, raw_segments. rewrite <- Hfind.
  destruct (find_frames dir1 vid) as [ff|e] eqn:Hff; [|reflexivity].
  cbn [bind]. unfold segment_pass.
  rewrite (segment_loop_same_frames dir1 dir2 vid diff_threshold blank_threshold ff);
    [reflexivity|].
  intros f Hf. destruct (find_frames_names dir1 vid ff f Hff Hf). now apply Himg.
Qed.

Lemma other_files_ignored_witness :
  segment_frames scenario_with_others "v" Frames.d15 Frames.b30 1 =
  segment_frames (TwoPixel.directory scenario_frames) "v" Frames.d15 Frames.b30 1.
Proof.
  apply (other_files_ignored TwoPixel.numpy scenario_with_others
           (TwoPixel.directory scenario_frames)).
  - reflexivity.
  - intros name _ H. cbn [image_open scenario_with_others]. now rewrite H.
Defined.

(** ** Representative frames *)

Lemma map_fst_runs_incl (rs : list run) (f : frame_file) :
  In f (map fst rs) -> In f (flat_map run_frames rs).
Proof.
  intros H. apply in_map_iff in H as (r & <- & Hr).
  apply in_flat_map. exists r. split; [exact Hr | now left].
Qed.

Lemma first_frames_distinct {B : Type} (g : frame_file -> B) (rs : list run) :
  NoDup (map g (flat_map run_frames rs)) -> NoDup (map g (map fst rs)).
Proof.
  induction rs as [|r rs IH]; intros H; [constructor|].
  cbn [flat_map map] in *. unfold run_frames at 1 in H.
  cbn [app map] in H. rewrite map_app in H.
  inversion H as [|? ? Hnotin Hnd]; subst.
  constructor.
  - intros Hin. apply Hnotin, in_or_app. right.
    apply in_map_iff in Hin as (f & <- & Hf).
    apply in_map, map_fst_runs_incl, Hf.
  - apply IH. now apply NoDup_app_remove_l in Hnd.
Qed.

Lemma map_filter_distinct {A B : Type} (g : A -> B) (p : A -> bool) (l : list A) :
  NoDup (map g l) -> NoDup (map g (filter p l)).
Proof.
  induction l as [|a l IH]; cbn [map filter]; intros H; [constructor|].
  inversion H as [|? ? Hnotin Hnd]; subst.
  destruct (p a); [|auto]. cbn [map]. constructor; [|auto].
  intros Hin. apply Hnotin. apply in_map_iff in Hin as (x & <- & Hx).
  apply in_map. now apply filter_In in Hx as [Hx _].
Qed.

Lemma find_frames_names_distinct `{NP : NumPy} (frames_dir : Directory)
    (vid : string) (frame_files : list frame_file) :
  NoDup (os_listdir frames_dir) ->
  find_frames frames_dir vid = Ok frame_files ->
  NoDup (map snd frame_files).
Proof.
  intros Hnd. unfold find_frames.
  destruct (collect_frames _ _) as [|x l] eqn:E; [discriminate|].
  intros [= <-]. rewrite <- E.
  eapply Permutation_NoDup;
    [apply Permutation_map, FrameSort.Permuted_sort|].
  rewrite collect_frames_names. apply NoDup_filter.
  eapply Permutation_NoDup; [apply StringSort.Permuted_sort | exact Hnd].
Qed.

(** X20. Every returned segment has a representative frame of its own:
    in a directory that lists no name twice, no two returned segments
    name the same file, even where two segments have the same frame
    number. *)
Theorem representative_frames_distinct (NP : NumPy) (frames_dir : Directory)
    (vid : string) (diff_threshold blank_threshold : float)
    (min_segment_duration : Z) (out : list Segment) :
  NoDup (os_listdir frames_dir) ->
  segment_frames frames_dir vid diff_threshold blank_threshold
    min_segment_duration = Ok out ->
  NoDup (map representative_frame out).
Proof.
  intros Hnd Hout. rewrite segment_frames_filter in Hout.
  destruct (raw_segments frames_dir vid diff_threshold blank_threshold)
    as [raw|] eqn:Hraw; cbn in Hout; [|discriminate].
  injection Hout as <-. apply map_filter_distinct.
  destruct (raw_segments_blocks _ _ _ _ _ Hraw)
    as (ff & bs & tr & Hff & E & -> & Hok & Htr).
  pose proof (find_frames_names_distinct frames_dir vid ff Hnd Hff) as Hnames.
  replace (map representative_frame (segments_of_runs vid 0 (map snd bs)))
    with (map snd (map fst (map snd bs))).
  - apply first_frames_distinct.
    rewrite <- (blocks_content_frames frames_dir blank_threshold bs tr Hok Htr).
    rewrite <- E. now apply map_filter_distinct.
  - rewrite <- (segments_of_runs_openings vid (map snd bs) 0), map_map.
    reflexivity.
Qed.

Lemma representative_frames_distinct_witness :
  NoDup (map representative_frame [first_of_twice; second_of_twice]).
Proof.
  apply (representative_frames_distinct TwoPixel.numpy
           (TwoPixel.directory twice_frame_1) "v" Frames.d15 Frames.b30 1).
  - repeat constructor; cbn; intuition discriminate.
  - reflexivity.
Defined.
